(** * container/conductor/utils.py: role fingerprints and image configuration

    A shallow embedding of the conductor utilities of ansible-container:
    [metadata_to_image_config], [get_role_fingerprint] (with its local
    helpers [hash_file], [hash_dir], [hash_role] and
    [get_dependencies_for_role]) and [get_content_from_role].

    Python 2 byte strings ([str]) are Rocq [string]s (one [ascii] per byte),
    dictionaries are finite maps, exceptions are an explicit outcome. *)

From Stdlib Require Import ZArith List Ascii String Lia.
From stdpp Require Import base option list gmap strings fin_maps pretty.

(** ** hashlib.sha256

    The digest library is not part of the repository; the fingerprint is the
    SHA-256 (FIPS 180-4) of everything passed to [update], so the function is
    written out here over 32-bit words held in [Z]. *)

Module SHA256.
Local Open Scope Z_scope.

Definition w32 (x : Z) : Z := Z.land x 0xffffffff.
Definition rotr (n x : Z) : Z :=
  w32 (Z.lor (Z.shiftr x n) (Z.shiftl x (32 - n))).

Definition Ch (x y z : Z) : Z :=
  Z.lxor (Z.land x y) (Z.land (w32 (Z.lnot x)) z).
Definition Maj (x y z : Z) : Z :=
  Z.lxor (Z.lxor (Z.land x y) (Z.land x z)) (Z.land y z).
Definition bsig0 (x : Z) : Z := Z.lxor (Z.lxor (rotr 2 x) (rotr 13 x)) (rotr 22 x).
Definition bsig1 (x : Z) : Z := Z.lxor (Z.lxor (rotr 6 x) (rotr 11 x)) (rotr 25 x).
Definition ssig0 (x : Z) : Z := Z.lxor (Z.lxor (rotr 7 x) (rotr 18 x)) (Z.shiftr x 3).
Definition ssig1 (x : Z) : Z := Z.lxor (Z.lxor (rotr 17 x) (rotr 19 x)) (Z.shiftr x 10).

(** The round constants are the first 32 bits of the fractional parts of
    the cube roots of the first 64 primes, the initial hash value those of
    the square roots of the first 8 primes. *)
Definition is_prime (n : Z) : bool :=
  forallb (fun d => negb (n mod d =? 0)) (seqZ 2 (n - 2)).

Definition primes : list Z := List.filter is_prime (seqZ 2 310).

(** The largest [r] below [2 ^ bit] past [r0] whose [k]-th power is at most
    [n], found bit by bit. *)
Fixpoint root_bits (k n : Z) (bit : nat) (r : Z) : Z :=
  match bit with
  | O => r
  | S bit' =>
      let r' := r + 2 ^ Z.of_nat bit' in
      root_bits k n bit' (if r' ^ k <=? n then r' else r)
  end.

Definition fractional_root (k p : Z) : Z :=
  w32 (root_bits k (p * 2 ^ (32 * k)) 40 0).

Definition K : list Z := map (fractional_root 3) primes.

Definition H0 : list Z := map (fractional_root 2) (firstn 8 primes).

Definition word_at (l : list Z) (i : nat) : Z := nth i l 0.

(** Message schedule, produced from a sliding window of the last 16 words. *)
Definition next_word (win : list Z) : Z :=
  w32 (ssig1 (word_at win 14) + word_at win 9 + ssig0 (word_at win 1) + word_at win 0).

Fixpoint schedule (n : nat) (win : list Z) : list Z :=
  match n with
  | O => []
  | S n' => word_at win 0 :: schedule n' (tl win ++ [next_word win])
  end.

(** One round on the working variables a..h (kept as a list of eight). *)
Definition round (v : list Z) (kw : Z * Z) : list Z :=
  let a := word_at v 0 in let b := word_at v 1 in
  let c := word_at v 2 in let d := word_at v 3 in
  let e := word_at v 4 in let f := word_at v 5 in
  let g := word_at v 6 in let h := word_at v 7 in
  let t1 := w32 (h + bsig1 e + Ch e f g + fst kw + snd kw) in
  let t2 := w32 (bsig0 a + Maj a b c) in
  [w32 (t1 + t2); a; b; c; w32 (d + t1); e; f; g].

Fixpoint be_word (bs : list Z) (acc : Z) : Z :=
  match bs with
  | [] => acc
  | b :: bs' => be_word bs' (Z.lor (Z.shiftl acc 8) b)
  end.

Fixpoint words_of (n : nat) (bs : list Z) : list Z :=
  match n with
  | O => []
  | S n' => be_word (firstn 4 bs) 0 :: words_of n' (skipn 4 bs)
  end.

Definition compress (hv : list Z) (block : list Z) : list Z :=
  let ws := schedule 64 (words_of 16 block) in
  let v := fold_left round (combine K ws) hv in
  map (fun p => w32 (fst p + snd p)) (combine hv v).

Fixpoint process (n : nat) (hv : list Z) (bs : list Z) : list Z :=
  match n with
  | O => hv
  | S n' => process n' (compress hv (firstn 64 bs)) (skipn 64 bs)
  end.

Definition be_bytes (n : nat) (x : Z) : list Z :=
  map (fun i => Z.land (Z.shiftr x (8 * Z.of_nat i)) 0xff) (rev (seq 0 n)).

Definition pad (msg : list Z) : list Z :=
  let len := Z.of_nat (length msg) in
  msg ++ [0x80] ++ repeat 0 (Z.to_nat ((55 - len) mod 64)) ++ be_bytes 8 (8 * len).

Definition digest_words (msg : list Z) : list Z :=
  let p := pad msg in
  process (Nat.div (length p) 64) H0 p.

Definition hex_digit (x : Z) : ascii :=
  ascii_of_N (Z.to_N (if x <? 10 then 48 + x else 87 + x)).

Definition hex_of_byte (b : Z) : string :=
  String (hex_digit (Z.shiftr b 4)) (String (hex_digit (Z.land b 0xf)) EmptyString).

Definition bytes_of_string (s : string) : list Z :=
  map (fun c => Z.of_N (N_of_ascii c)) (list_ascii_of_string s).

(** [hashlib.sha256(s).hexdigest()] *)
Definition hexdigest (s : string) : string :=
  String.concat ""
    (map hex_of_byte (flat_map (be_bytes 4) (digest_words (bytes_of_string s)))).

End SHA256.

(** ** Outcomes of a call

    A call returns a value, raises an exception, or exceeds every recursion
    depth it is given ([Diverge], produced only by [hash_role]). *)

Inductive exn :=
| ResolutionError | IOError | ParseError
| AttributeError | TypeError | ValueError | IndexError.

Inductive outcome (A : Type) : Type :=
| Ok (a : A)
| Raise (e : exn)
| Diverge.
Arguments Ok {A} a.
Arguments Raise {A} e.
Arguments Diverge {A}.

Global Instance outcome_ret : MRet outcome := @Ok.
Global Instance outcome_bind : MBind outcome := fun A B f m =>
  match m with
  | Ok a => f a
  | Raise e => Raise e
  | Diverge => Diverge
  end.
Global Instance outcome_fmap : FMap outcome := fun A B f m =>
  match m with
  | Ok a => Ok (f a)
  | Raise e => Raise e
  | Diverge => Diverge
  end.

Definition terminates {A} (m : outcome A) : Prop := m <> Diverge.
Definition returns {A} (m : outcome A) : Prop := exists a, m = Ok a.
Definition raises {A} (m : outcome A) : Prop := exists e, m = Raise e.

(** [for x in xs: acc = body(acc, x)], stopping at the first exception. *)
Fixpoint for_each {A S} (body : S -> A -> outcome S) (acc : S) (xs : list A)
  : outcome S :=
  match xs with
  | [] => Ok acc
  | x :: xs' => acc' ← body acc x; for_each body acc' xs'
  end.

(** [[f(x) for x in xs]] *)
Fixpoint comprehension {A B} (f : A -> outcome B) (xs : list A)
  : outcome (list B) :=
  match xs with
  | [] => Ok []
  | x :: xs' => y ← f x; ys ← comprehension f xs'; Ok (y :: ys)
  end.

(** ** Python values

    The documents handled here come out of a YAML loader: scalars, lists and
    mappings with string keys. *)

#[warnings="-register-all"]
Inductive pyval :=
| PNone
| PBool (b : bool)
| PInt (z : Z)
| PStr (s : string)
| PList (l : list pyval)
| PDict (d : gmap string pyval).

Definition empty_dict : pyval := PDict ∅.

(** [if v:] *)
Definition truthy (v : pyval) : bool :=
  match v with
  | PNone => false
  | PBool b => b
  | PInt z => negb (z =? 0)%Z
  | PStr s => negb (String.eqb s "")
  | PList l => match l with [] => false | _ => true end
  | PDict d => negb (bool_decide (d = ∅))
  end.

Definition chars (s : string) : list string :=
  map (fun c => String c "") (list_ascii_of_string s).

(** [for x in v]: the elements of a list, the characters of a string, the
    keys of a mapping; other values are not iterable. *)
Definition py_iter (v : pyval) : outcome (list pyval) :=
  match v with
  | PList l => Ok l
  | PStr s => Ok (map PStr (chars s))
  | PDict d => Ok (map (fun kv => PStr (fst kv)) (map_to_list d))
  | _ => Raise TypeError
  end.

(** [v.get(key, default)]: only mappings have the method. *)
Definition py_get (v : pyval) (key : string) (default : pyval) : outcome pyval :=
  match v with
  | PDict d => Ok (from_option id default (d !! key))
  | _ => Raise AttributeError
  end.

(** *** String methods *)

Definition ascii_eqb (a b : ascii) : bool := bool_decide (a = b).

(** [s.split(c)] for a one-character separator. *)
Fixpoint split_on (c : ascii) (s : string) : list string :=
  match s with
  | EmptyString => [""]
  | String a s' =>
      if ascii_eqb a c then "" :: split_on c s'
      else match split_on c s' with
           | p :: ps => String a p :: ps
           | [] => [String a ""]
           end
  end.

(** [c in s] *)
Fixpoint contains (c : ascii) (s : string) : bool :=
  match s with
  | EmptyString => false
  | String a s' => ascii_eqb a c || contains c s'
  end.

(** [s.split(c, 1)] when [c in s]: the text before and after the first [c]. *)
Fixpoint split_first (c : ascii) (s : string) : string * string :=
  match s with
  | EmptyString => ("", "")
  | String a s' =>
      if ascii_eqb a c then ("", s')
      else let '(l, r) := split_first c s' in (String a l, r)
  end.

Fixpoint lstrip (s : string) : string :=
  match s with
  | String a s' => if Ascii.is_space a then lstrip s' else s
  | EmptyString => ""
  end.

Definition rstrip (s : string) : string := String.rev (lstrip (String.rev s)).

Fixpoint digits (acc : Z) (s : string) : option Z :=
  match s with
  | EmptyString => Some acc
  | String a s' =>
      match Ascii.is_nat a with
      | Some d => digits (10 * acc + Z.of_nat d) s'
      | None => None
      end
  end.

Definition unsigned_literal (s : string) : outcome Z :=
  match lstrip s with
  | EmptyString => Raise ValueError
  | t => match digits 0 t with
         | Some z => Ok z
         | None => Raise ValueError
         end
  end.

(** [int(s)] of Python 2 on a byte string, base 10: surrounding white space
    is dropped, a sign may precede the digits (white space may follow it). *)
Definition py_int (s : string) : outcome Z :=
  match lstrip (rstrip s) with
  | String "-" t => z ← unsigned_literal t; Ok (- z)%Z
  | String "+" t => unsigned_literal t
  | t => unsigned_literal t
  end.

(** [str(n)] *)
Definition py_str (n : Z) : string := pretty n.

(** [range(lo, hi)]; the list is as long as the range, memory is unbounded. *)
Definition py_range (lo hi : Z) : list Z := seqZ lo (hi - lo).

(** ** metadata_to_image_config *)

Section ImageConfig.

(** [to_return[str(port)] = {}] for every port of the range *)
Definition expose_all (to_return : gmap string pyval) (ports : list Z)
  : gmap string pyval :=
  fold_left (fun acc port => <[py_str port := empty_dict]> acc) ports to_return.

(** The body of the loop of [ports_to_exposed_ports]. *)
Definition expose (to_return : gmap string pyval) (port_spec : pyval)
  : outcome (gmap string pyval) :=
  match port_spec with
  | PStr spec =>
      let exposed_ports := List.last (split_on ":" spec) "" in
      if contains "-" exposed_ports then
        let '(low, high) := split_first "-" exposed_ports in
        lo ← py_int low;
        hi ← py_int high;
        Ok (expose_all to_return (py_range lo (hi + 1)))
      else Ok (<[exposed_ports := empty_dict]> to_return)
  | _ => Raise AttributeError
  end.

Definition ports_to_exposed_ports (list_of_ports : pyval) : outcome pyval :=
  specs ← py_iter list_of_ports;
  to_return ← for_each expose ∅ specs;
  Ok (PDict to_return).

(** ['='.join(tpl)] for an item [(key, value)] of the mapping *)
Definition join_item (tpl : string * pyval) : outcome pyval :=
  match snd tpl with
  | PStr v => Ok (PStr (fst tpl +:+ "=" +:+ v))
  | _ => Raise TypeError
  end.

Definition format_environment (environment : pyval) : outcome pyval :=
  match environment with
  | PDict d => PList <$> comprehension join_item (map_to_list d)
  | _ => Ok environment
  end.

(** [v.split()]: the white-space separated words of a string *)
Definition py_split (v : pyval) : outcome (list string) :=
  match v with
  | PStr s => Ok (String.words s)
  | _ => Raise AttributeError
  end.

(** [parts[0]] as the key of the mapping under construction *)
Definition mount (acc : gmap string pyval) (parts : list string)
  : outcome (gmap string pyval) :=
  match parts with
  | p :: _ => Ok (<[p := empty_dict]> acc)
  | [] => Raise IndexError
  end.

(** The [lambda _list: ...] of the ['volumes'] entry. *)
Definition volumes_to_mounts (_list : pyval) : outcome pyval :=
  vs ← py_iter _list;
  split ← comprehension py_split vs;
  PDict <$> for_each mount ∅ split.

Definition translator := option (pyval -> outcome pyval).

Definition TRANSLATORS : list (string * (string * translator)) :=
  [ ("hostname", ("Hostname", None));
    ("domainname", ("Domainname", None));
    ("user", ("User", None));
    ("ports", ("ExposedPorts", Some ports_to_exposed_ports));
    ("environment", ("Env", Some format_environment));
    ("command", ("Cmd", None));
    ("working_dir", ("WorkingDir", None));
    ("entrypoint", ("Entrypoint", None));
    ("volumes", ("Volumes", Some volumes_to_mounts));
    ("labels", ("Labels", None));
    ("onbuild", ("OnBuild", None)) ].

(** The initial [config = dict(...)]. *)
Definition default_config : gmap string pyval :=
  <["Hostname" := PStr ""]> (
  <["Domainname" := PStr ""]> (
  <["User" := PStr ""]> (
  <["ExposedPorts" := empty_dict]> (
  <["Env" := PList []]> (
  <["Cmd" := PStr ""]> (
  <["WorkingDir" := PStr ""]> (
  <["Entrypoint" := PNone]> (
  <["Volumes" := empty_dict]> (
  <["Labels" := empty_dict]> (
  <["OnBuild" := PList []]> ∅)))))))))).

(** The body of the final loop: one entry of the table. *)
Definition translate (metadata : gmap string pyval)
    (config : gmap string pyval) (entry : string * (string * translator))
  : outcome (gmap string pyval) :=
  let '(metadata_key, (key, translator)) := entry in
  match metadata !! metadata_key with
  | Some value =>
      translated ← match translator with
                   | Some f => f value
                   | None => Ok value
                   end;
      Ok (<[key := translated]> config)
  | None => Ok config
  end.

(** The table is visited in the order it is written in; its entries write
    distinct keys, so only the choice of the exception raised (when several
    translators fail) depends on that order. *)
Definition metadata_to_image_config (metadata : gmap string pyval)
  : outcome (gmap string pyval) :=
  for_each (translate metadata) default_config TRANSLATORS.

End ImageConfig.


(** ** The filesystem

    A directory lists its entries in the order the filesystem enumerates
    them ([os.listdir]); a path is looked up from the root, component by
    component (empty components are dropped; [.] and [..] are ordinary
    names). The model has regular files and directories only, all of them
    readable. *)

#[warnings="-register-all"]
Inductive node :=
| File (data : string)
| Dir (entries : list (string * node)).

Fixpoint entry (name : string) (es : list (string * node)) : option node :=
  match es with
  | [] => None
  | (n, x) :: es' => if String.eqb n name then Some x else entry name es'
  end.

Definition components (path : string) : list string :=
  List.filter (fun c => negb (String.eqb c "")) (split_on "/" path).

Fixpoint descend (n : node) (cs : list string) : option node :=
  match cs with
  | [] => Some n
  | c :: cs' =>
      match n with
      | Dir es => match entry c es with
                  | Some n' => descend n' cs'
                  | None => None
                  end
      | File _ => None
      end
  end.

Definition fs_lookup (fs : node) (path : string) : option node :=
  descend fs (components path).

Definition starts_with_slash (s : string) : bool :=
  match s with
  | String a _ => ascii_eqb a "/"
  | EmptyString => false
  end.

Fixpoint ends_with_slash (s : string) : bool :=
  match s with
  | EmptyString => false
  | String a EmptyString => ascii_eqb a "/"
  | String _ s' => ends_with_slash s'
  end.

(** [os.path.join(a, b)] (posixpath) *)
Definition path_join (a b : string) : string :=
  if starts_with_slash b then b
  else if String.eqb a "" || ends_with_slash a then a +:+ b
  else a +:+ "/" +:+ b.

(** [os.path.exists(path)] *)
Definition path_exists (fs : node) (path : string) : bool :=
  match fs_lookup fs path with
  | Some _ => true
  | None => false
  end.

(** [open(path).read()]: the bytes of a regular file. *)
Definition open_read (fs : node) (path : string) : outcome string :=
  match fs_lookup fs path with
  | Some (File data) => Ok data
  | _ => Raise IOError
  end.

(** *** os.walk(top, topdown=True)

    One triple [(root, dirs, files)] per directory: the directory itself
    first, then its subdirectories in the order of [dirs]. Nothing is sorted.
    A [top] that cannot be listed yields nothing. *)

Definition walk_item : Type := string * list string * list string.

Fixpoint dirs_of (es : list (string * node)) : list string :=
  match es with
  | [] => []
  | (name, Dir _) :: es' => name :: dirs_of es'
  | (_, File _) :: es' => dirs_of es'
  end.

Fixpoint nondirs_of (es : list (string * node)) : list string :=
  match es with
  | [] => []
  | (name, File _) :: es' => name :: nondirs_of es'
  | (_, Dir _) :: es' => nondirs_of es'
  end.

(** A regular file among the entries is not descended into: its walk is
    empty, so only the names of [dirs] are visited. *)
Fixpoint walk (top : string) (n : node) : list walk_item :=
  match n with
  | File _ => []
  | Dir es =>
      (top, dirs_of es, nondirs_of es) ::
      flat_map (fun e => walk (path_join top (fst e)) (snd e)) es
  end.

Definition os_walk (fs : node) (top : string) : list walk_item :=
  match fs_lookup fs top with
  | Some n => walk top n
  | None => []
  end.

(** ** get_role_fingerprint *)

(** The running computation: the bytes passed so far to [hash_obj.update]
    (the SHA-256 object is a function of their concatenation) and the role
    names handed so far to the role resolver. *)
Record state := State {
  hash_obj : string;
  resolved : list pyval;
}.

Definition initial : state := State "" [].

(** [hash_obj.update(data)] *)
Definition update (st : state) (data : string) : state :=
  State (hash_obj st +:+ data) (resolved st).

Definition resolving (role_name : pyval) (st : state) : state :=
  State (hash_obj st) (resolved st ++ [role_name]).

(** [hash_obj.hexdigest()] *)
Definition hexdigest (st : state) : string := SHA256.hexdigest (hash_obj st).

Fixpoint string_take (n : nat) (s : string) : string :=
  match n, s with
  | S n', String a s' => String a (string_take n' s')
  | _, _ => ""
  end.

Fixpoint string_drop (n : nat) (s : string) : string :=
  match n, s with
  | S n', String _ s' => string_drop n' s'
  | _, _ => s
  end.

Definition blocksize : nat := 64 * 1024.
Opaque blocksize.

Section Fingerprint.

(** External collaborators: the role resolver of the host framework
    ([RoleInclude.load(...)._role_path]) and the YAML loaders. *)
Variable role_include_load : pyval -> outcome string.
Variable yaml_safe_load : string -> outcome pyval.
Variable yaml_round_trip_load : string -> outcome pyval.

Definition resolve_role_to_path (role_name : pyval) : outcome string :=
  role_include_load role_name.

(** The [while True] loop of [hash_file] over the open file [ifs]; every
    turn but the last consumes at least one byte, so [S (length ifs)] turns
    always reach the [break]. *)
Fixpoint read_blocks (turns : nat) (st : state) (ifs : string) : state :=
  match turns with
  | O => st
  | S turns' =>
      let data := string_take blocksize ifs in
      if String.eqb data "" then st
      else read_blocks turns' (update (update st data) "::")
                       (string_drop blocksize ifs)
  end.

Definition hash_file (fs : node) (st : state) (file_path : string)
  : outcome state :=
  ifs ← open_read fs file_path;
  Ok (read_blocks (S (String.length ifs)) st ifs).

Definition hash_dir (fs : node) (st : state) (dir_path : string)
  : outcome state :=
  for_each
    (fun st (item : walk_item) =>
       let '(root, _, files) := item in
       for_each
         (fun st file_path =>
            let abs_file_path := path_join root file_path in
            hash_file fs (update (update st abs_file_path) "::") abs_file_path)
         st files)
    st (os_walk fs dir_path).

(** The generator: what runs before the first [yield] gives the entries of
    the dependency list; each [next] then evaluates
    [dependency.get('role', None)] on one entry. *)
Definition get_dependencies_for_role (fs : node) (role_path : string)
  : outcome (list (outcome pyval)) :=
  let meta_main_path := path_join (path_join role_path "meta") "main.yml" in
  document ← open_read fs meta_main_path;
  meta_main ← yaml_safe_load document;
  dependencies ← py_get meta_main "dependencies" (PList []);
  entries ← py_iter dependencies;
  Ok (map (fun dependency => py_get dependency "role" PNone) entries).

(** The [for dependency in ...] loop of [hash_role]; [recurse] is the
    recursive call. *)
Fixpoint for_dependencies (recurse : state -> string -> outcome state)
    (st : state) (deps : list (outcome pyval)) : outcome state :=
  match deps with
  | [] => Ok st
  | next :: rest =>
      dependency ← next;
      if truthy dependency then
        dependency_path ← resolve_role_to_path dependency;
        st' ← recurse (resolving dependency st) dependency_path;
        for_dependencies recurse st' rest
      else for_dependencies recurse st rest
  end.

(** [depth] bounds the nesting of the recursive calls (the interpreter has
    such a bound, and aborts the call when it is hit); [Diverge] says the
    bound was hit. A call that terminates does so within some depth. *)
Fixpoint hash_role (depth : nat) (fs : node) (st : state) (role_path : string)
  : outcome state :=
  match depth with
  | O => Diverge
  | S depth' =>
      st1 ← hash_dir fs st role_path;
      deps ← get_dependencies_for_role fs role_path;
      for_dependencies (hash_role depth' fs) st1 deps
  end.

Definition get_role_fingerprint (depth : nat) (fs : node) (role_name : pyval)
  : outcome string :=
  role_path ← resolve_role_to_path role_name;
  st ← hash_role depth fs (resolving role_name initial) role_path;
  Ok (hexdigest st).

(** ** get_content_from_role *)

Definition get_content_from_role (fs : node) (role_name : pyval)
    (relative_path : string) : outcome pyval :=
  role_path ← resolve_role_to_path role_name;
  let metadata_file := path_join role_path relative_path in
  if path_exists fs metadata_file then
    ifs ← open_read fs metadata_file;
    yaml_round_trip_load ifs
  else Ok empty_dict.

Definition get_metadata_from_role (fs : node) (role_name : pyval)
  : outcome pyval :=
  get_content_from_role fs role_name (path_join "meta" "container.yml").

Definition get_defaults_from_role (fs : node) (role_name : pyval)
  : outcome pyval :=
  get_content_from_role fs role_name (path_join "defaults" "main.yml").

End Fingerprint.

(** ** Auxiliary notions used in the statements *)

Definition target (e : string * (string * translator)) : string := fst (snd e).

Definition run (tr : translator) (value : pyval) : outcome pyval :=
  match tr with
  | Some f => f value
  | None => Ok value
  end.

(** A yielded dependency that the loop of [hash_role] passes over: its
    value is falsy ([None] when the entry has no role name). *)
Definition skipped (next : outcome pyval) : bool :=
  match next with
  | Ok dependency => negb (truthy dependency)
  | _ => false
  end.

Definition named (next : outcome pyval) : bool := negb (skipped next).

(** [q] is the path of a role that the role at [p] declares as a dependency. *)
Definition depends_on (role_include_load : pyval -> outcome string)
    (yaml_safe_load : string -> outcome pyval) (fs : node) (p q : string) : Prop :=
  exists deps name,
    get_dependencies_for_role yaml_safe_load fs p = Ok deps /\
    In (Ok name) deps /\ truthy name = true /\
    resolve_role_to_path role_include_load name = Ok q.

(** The bytes of the regular files of a tree, and the paths of the roles
    that the documents among them declare as dependencies: every role some
    role depends on is one of these. *)
Fixpoint documents (n : node) : list string :=
  match n with
  | File data => [data]
  | Dir es => flat_map (fun e => documents (snd e)) es
  end.

Definition declared_in (role_include_load : pyval -> outcome string)
    (yaml_safe_load : string -> outcome pyval) (document : string) : list string :=
  match (meta_main ← yaml_safe_load document;
         dependencies ← py_get meta_main "dependencies" (PList []);
         py_iter dependencies) with
  | Ok entries =>
      flat_map (fun entry =>
                  match (dependency ← py_get entry "role" PNone;
                         resolve_role_to_path role_include_load dependency) with
                  | Ok role_path => [role_path]
                  | _ => []
                  end) entries
  | _ => []
  end.

Definition declared (role_include_load : pyval -> outcome string)
    (yaml_safe_load : string -> outcome pyval) (fs : node) : list string :=
  flat_map (declared_in role_include_load yaml_safe_load) (documents fs).

(** The bodies of the two loops of [hash_dir], named. *)
Definition file_body (fs : node) (root : string) (st : state)
    (file_path : string) : outcome state :=
  hash_file fs (update (update st (path_join root file_path)) "::")
            (path_join root file_path).

Definition item_body (fs : node) (st : state) (item : walk_item)
  : outcome state :=
  for_each (file_body fs (fst (fst item))) st (snd item).

(** *** Well-formed directories

    Within a directory the names are distinct, non-empty and free of ["/"]. *)

Definition valid_name (name : string) : bool :=
  negb (String.eqb name "") && negb (contains "/" name).

Fixpoint distinct (names : list string) : bool :=
  match names with
  | [] => true
  | name :: rest => negb (existsb (String.eqb name) rest) && distinct rest
  end.

Fixpoint wf_node (n : node) : bool :=
  match n with
  | File _ => true
  | Dir es =>
      distinct (map fst es) &&
      forallb (fun e => valid_name (fst e) && wf_node (snd e)) es
  end.

(** *** The hash input as the specification words it

    For each file met by the walk: its path, a separator, then its contents
    in blocks of [blocksize] bytes, each followed by a separator. *)

Definition separator : string := "::".

Fixpoint blocks_of (turns : nat) (data : string) : list string :=
  match turns with
  | O => []
  | S turns' =>
      match data with
      | EmptyString => []
      | _ => string_take blocksize data ::
             blocks_of turns' (string_drop blocksize data)
      end
  end.

Definition blocks (data : string) : list string :=
  blocks_of (S (String.length data)) data.

Definition join_all (pieces : list string) : string :=
  fold_right String.append "" pieces.

Definition file_hash_input (path data : string) : string :=
  path +:+ separator +:+
  join_all (map (fun block => block +:+ separator) (blocks data)).

Fixpoint files_hash_input (top : string) (es : list (string * node)) : string :=
  match es with
  | [] => ""
  | (name, File data) :: es' =>
      file_hash_input (path_join top name) data +:+ files_hash_input top es'
  | (_, Dir _) :: es' => files_hash_input top es'
  end.

Fixpoint tree_hash_input (top : string) (n : node) : string :=
  match n with
  | File _ => ""
  | Dir es =>
      files_hash_input top es +:+
      join_all (map (fun e => tree_hash_input (path_join top (fst e)) (snd e)) es)
  end.

(** *** Enumeration order

    [files_first n] lists in every directory the regular files (in the order
    they had) before the subdirectories (in the order they had). *)

Fixpoint files_of (es : list (string * node)) : list (string * node) :=
  match es with
  | [] => []
  | (name, File data) :: es' => (name, File data) :: files_of es'
  | (_, Dir _) :: es' => files_of es'
  end.

Fixpoint files_first (n : node) : node :=
  match n with
  | File data => File data
  | Dir es =>
      Dir (files_of es ++
           flat_map (fun e => match snd e with
                              | Dir _ => [(fst e, files_first (snd e))]
                              | File _ => []
                              end) es)
  end.

(** *** The roles hashed, in order

    [role_visits] follows the recursion of [hash_role] and lists the roles in
    the order they are hashed (a role, then its dependencies in declared
    order, each followed by its own), with the directory found at each. *)

Definition visit : Type := string * node.

Section Visits.

Variable role_include_load : pyval -> outcome string.
Variable yaml_safe_load : string -> outcome pyval.

Fixpoint visits_of (recurse : string -> outcome (list visit))
    (deps : list (outcome pyval)) : outcome (list visit) :=
  match deps with
  | [] => Ok []
  | next :: rest =>
      dependency ← next;
      if truthy dependency then
        dependency_path ← resolve_role_to_path role_include_load dependency;
        here ← recurse dependency_path;
        more ← visits_of recurse rest;
        Ok (here ++ more)
      else visits_of recurse rest
  end.

Fixpoint role_visits (depth : nat) (fs : node) (role_path : string)
  : outcome (list visit) :=
  match depth with
  | O => Diverge
  | S depth' =>
      match fs_lookup fs role_path with
      | Some tree =>
          deps ← get_dependencies_for_role yaml_safe_load fs role_path;
          below ← visits_of (role_visits depth' fs) deps;
          Ok ((role_path, tree) :: below)
      | None => Raise IOError
      end
  end.

End Visits.

Definition visits_hash_input (visits : list visit) : string :=
  join_all (map (fun v => tree_hash_input (fst v) (snd v)) visits).

(** *** One change to a directory tree

    A file gets other bytes, a file is added, or a file is removed, in the
    directory or anywhere below it. *)

Inductive edit : node -> node -> Prop :=
| edit_write pre name data data' post :
    data <> data' ->
    edit (Dir (pre ++ (name, File data) :: post))
         (Dir (pre ++ (name, File data') :: post))
| edit_add pre name data post :
    edit (Dir (pre ++ post)) (Dir (pre ++ (name, File data) :: post))
| edit_remove pre name data post :
    edit (Dir (pre ++ (name, File data) :: post)) (Dir (pre ++ post))
| edit_below pre name sub sub' post :
    edit sub sub' ->
    edit (Dir (pre ++ (name, sub) :: post)) (Dir (pre ++ (name, sub') :: post)).

(** The same tree, found at the same path of two filesystems. *)
Definition same_tree_at (fs1 fs2 : node) (path : string) : Prop :=
  exists tree,
    fs_lookup fs1 path = Some tree /\ fs_lookup fs2 path = Some tree /\
    wf_node tree = true.

(** ** A small world for the examples

    Roles live under [/roles]; the resolver and the YAML loaders are given by
    finite tables (the loaders map each document below to the value the YAML
    text denotes, and reject every other text). *)

Module Example.

Definition find {A} (table : list (string * A)) (key : string) : option A :=
  match List.find (fun kv => String.eqb (fst kv) key) table with
  | Some kv => Some (snd kv)
  | None => None
  end.

Definition role_include_load (role_name : pyval) : outcome string :=
  match role_name with
  | PStr name =>
      match find [("web", "/roles/web"); ("db", "/roles/db");
                  ("common", "/roles/common"); ("loop", "/roles/loop")] name with
      | Some role_path => Ok role_path
      | None => Raise ResolutionError
      end
  | _ => Raise ResolutionError
  end.

Definition depends (names : list string) : pyval :=
  PDict {[ "dependencies" :=
             PList (map (fun name => PDict {[ "role" := PStr name ]}) names) ]}.

Definition yaml_load (document : string) : outcome pyval :=
  match find
          [ ("{}", PDict ∅);
            ("dependencies: []", depends []);
            ("dependencies: [{role: db}, {role: common}]", depends ["db"; "common"]);
            ("dependencies: [{role: common}, {role: db}]", depends ["common"; "db"]);
            ("dependencies: [{role: loop}]", depends ["loop"]);
            ("dependencies: [{}, {role: db}]",
               PDict {[ "dependencies" := PList [PDict ∅; PDict {[ "role" := PStr "db" ]}] ]});
            ("ports: ['8080-8082']", PDict {[ "ports" := PList [PStr "8080-8082"] ]}) ]
          document with
  | Some value => Ok value
  | None => Raise ParseError
  end.

(** A role directory: a task file and the dependency-declaration document. *)
Definition role_dir (tasks meta_main : string) : node :=
  Dir [ ("tasks", Dir [("main.yml", File tasks)]);
        ("meta", Dir [("main.yml", File meta_main)]) ].

(** [/roles/web] depends on [db] and [common], which depend on nothing. *)
Definition fs : node :=
  Dir [("roles", Dir [
    ("web", role_dir "- ping:" "dependencies: [{role: db}, {role: common}]");
    ("db", role_dir "- ping:" "{}");
    ("common", role_dir "- ping:" "dependencies: []") ])].

(** The same roles, [web] listing its two dependencies the other way round. *)
Definition fs_reordered : node :=
  Dir [("roles", Dir [
    ("web", role_dir "- ping:" "dependencies: [{role: common}, {role: db}]");
    ("db", role_dir "- ping:" "{}");
    ("common", role_dir "- ping:" "dependencies: []") ])].

(** [web] with an entry that names no role, and with a document that is not
    YAML. *)
Definition fs_unnamed : node :=
  Dir [("roles", Dir [
    ("web", role_dir "- ping:" "dependencies: [{}, {role: db}]");
    ("db", role_dir "- ping:" "{}") ])].

Definition fs_malformed : node :=
  Dir [("roles", Dir [("web", role_dir "- ping:" "dependencies: [")])].

(** A role that lists itself. *)
Definition fs_loop : node :=
  Dir [("roles", Dir [("loop", role_dir "- ping:" "dependencies: [{role: loop}]")])].

(** [fs] after one write to the task file of [db]. *)
Definition fs_db_edited : node :=
  Dir [("roles", Dir [
    ("web", role_dir "- ping:" "dependencies: [{role: db}, {role: common}]");
    ("db", role_dir "- pong:" "{}");
    ("common", role_dir "- ping:" "dependencies: []") ])].

(** Another host: the roles of [fs] at the same paths, beside other things. *)
Definition fs_other_host : node :=
  Dir [("tmp", Dir [("scratch", File "")]);
       ("roles", Dir [
    ("common", role_dir "- ping:" "dependencies: []");
    ("cache", role_dir "- flush:" "{}");
    ("db", role_dir "- ping:" "{}");
    ("web", role_dir "- ping:" "dependencies: [{role: db}, {role: common}]") ])].

(** Two roles with the same tree, and one role whose directory the
    filesystem enumerates in two orders. *)
Definition fs_twins : node :=
  Dir [("roles", Dir [
    ("db", role_dir "- ping:" "{}");
    ("common", role_dir "- ping:" "{}") ])].

Definition fs_meta_first : node :=
  Dir [("roles", Dir [
    ("db", Dir [ ("meta", Dir [("main.yml", File "{}")]);
                 ("tasks", Dir [("main.yml", File "- ping:")]) ]) ])].

Definition fs_interleaved (readme_first : bool) : node :=
  Dir [("roles", Dir [
    ("db", Dir (if readme_first
                then [ ("README", File "db"); ("tasks", Dir [("main.yml", File "- ping:")]);
                       ("meta", Dir [("main.yml", File "{}")]) ]
                else [ ("tasks", Dir [("main.yml", File "- ping:")]); ("README", File "db");
                       ("meta", Dir [("main.yml", File "{}")]) ])) ])].

End Example.

(** ** Further notions used in the statements *)

(** [to_return[key] = {}] for each of the keys. *)
Definition insert_keys (keys : list string) (acc : gmap string pyval)
  : gmap string pyval :=
  fold_left (fun acc key => <[key := empty_dict]> acc) keys acc.

(** The names of the fields of the image configuration. *)
Definition config_keys : list string :=
  ["Hostname"; "Domainname"; "User"; "ExposedPorts"; "Env"; "Cmd";
   "WorkingDir"; "Entrypoint"; "Volumes"; "Labels"; "OnBuild"].

Definition is_str (v : pyval) : bool :=
  match v with
  | PStr _ => true
  | _ => false
  end.

Definition is_lower_hex (c : ascii) : bool :=
  existsb (fun h => ascii_eqb c h) (list_ascii_of_string "0123456789abcdef").

(** [st] followed by what [s] holds. *)
Definition prepend (st s : state) : state :=
  State (hash_obj st +:+ hash_obj s) (resolved st ++ resolved s).

(** Two characters, each a lower-case hexadecimal digit. *)
Definition two_hex (s : string) : Prop :=
  exists c1 c2, s = String c1 (String c2 "") /\
                is_lower_hex c1 = true /\ is_lower_hex c2 = true.

Definition is_dict (v : pyval) : bool :=
  match v with
  | PDict _ => true
  | _ => false
  end.

(** ** More documents for the examples *)

Module Sample.

Definition yaml_load (document : string) : outcome pyval :=
  match Example.find
          [ ("", PNone);
            ("dependencies:", PDict {[ "dependencies" := PNone ]});
            ("dependencies: [common]",
               PDict {[ "dependencies" := PList [PStr "common"] ]});
            ("dependencies: [{role: db}, {role: db}]", Example.depends ["db"; "db"]);
            ("{}", PDict ∅);
            ("ports: ['80']", PDict {[ "ports" := PList [PStr "80"] ]}) ]
          document with
  | Some value => Ok value
  | None => Raise ParseError
  end.

Definition fs (meta_main : string) : node :=
  Dir [("roles", Dir [
    ("web", Example.role_dir "- ping:" meta_main);
    ("db", Example.role_dir "- ping:" "{}") ])].

(** [web] with and without an empty directory tree beside its files. *)
Definition with_empty_directories : node :=
  Dir [("roles", Dir [
    ("web", Dir [ ("files", Dir [("static", Dir [])]);
                  ("tasks", Dir [("main.yml", File "- ping:")]);
                  ("meta", Dir [("main.yml", File "{}")]) ]) ])].

(** A role with a container description, and one whose [meta/container.yml]
    is a directory. *)
Definition with_container (container : node) : node :=
  Dir [("roles", Dir [
    ("web", Dir [ ("meta", Dir [("main.yml", File "{}");
                                ("container.yml", container)]) ]) ])].

End Sample.

(** What reading and loading gives for the place a path leads to: a regular
    file is loaded, a directory cannot be read, nothing gives the empty
    mapping. *)
Definition content_at (load : string -> outcome pyval) (place : option node)
  : outcome pyval :=
  match place with
  | Some (File data) => load data
  | Some (Dir _) => Raise IOError
  | None => Ok empty_dict
  end.
(** * Properties *)

(** ** SHA-256 test vectors *)

Example sha256_constants :
  length SHA256.K = 64 /\ nth 0 SHA256.K 0%Z = 0x428a2f98%Z /\
  nth 63 SHA256.K 0%Z = 0xc67178f2%Z /\ nth 0 SHA256.H0 0%Z = 0x6a09e667%Z /\
  nth 7 SHA256.H0 0%Z = 0x5be0cd19%Z.
Proof. vm_compute. repeat split. Qed.

(** The function agrees with the standard test vectors. *)
Example sha256_empty :
  SHA256.hexdigest "" =
  "e3b0c44298fc1c149afbf4c8996fb92427ae41e4649b934ca495991b7852b855".
Proof. vm_compute. reflexivity. Qed.

Example sha256_abc :
  SHA256.hexdigest "abc" =
  "ba7816bf8f01cfea414140de5dae2223b00361a396177a9cb410ff61f20015ad".
Proof. vm_compute. reflexivity. Qed.

Example sha256_two_blocks :
  SHA256.hexdigest
    "aaaaaaaaaaaaaaaaaaaaaaaaaaaaaaaaaaaaaaaaaaaaaaaaaaaaaaaaaaaaaaaaaaaaaaaaaaaaaaaaaaaaaaaaaaaaaaaaaaaa" =
  "2816597888e4a0d3a36b82b83316ab32680eb8f00f8cd3b904d681246d285a0e".
Proof. vm_compute. reflexivity. Qed.

(** ** Strings *)

Section Strings.

Lemma string_app_cons (a : ascii) (s t : string) :
  String a s +:+ t = String a (s +:+ t).
Proof. reflexivity. Qed.

Lemma string_app_nil_r (s : string) : s +:+ "" = s.
Proof. induction s as [|a s IH]; [reflexivity|]. rewrite string_app_cons, IH. reflexivity. Qed.

Lemma string_app_assoc (s t u : string) : (s +:+ t) +:+ u = s +:+ (t +:+ u).
Proof.
  induction s as [|a s IH]; [reflexivity|].
  rewrite !string_app_cons, IH. reflexivity.
Qed.

Lemma string_app_length (s t : string) :
  String.length (s +:+ t) = String.length s + String.length t.
Proof.
  induction s as [|a s IH]; [reflexivity|].
  rewrite string_app_cons. simpl. rewrite IH. reflexivity.
Qed.

Lemma string_app_inv_head (s t u : string) : s +:+ t = s +:+ u -> t = u.
Proof.
  induction s as [|a s IH]; [auto|].
  rewrite !string_app_cons. intros H. injection H as H. auto.
Qed.

Lemma string_app_inv_tail (s t u : string) : s +:+ u = t +:+ u -> s = t.
Proof.
  revert t. induction s as [|a s IH]; intros [|b t] H.
  - reflexivity.
  - apply (f_equal String.length) in H.
    rewrite !string_app_length in H. simpl in H. lia.
  - apply (f_equal String.length) in H.
    rewrite !string_app_length in H. simpl in H. lia.
  - rewrite !string_app_cons in H. injection H as -> H. f_equal. auto.
Qed.

Lemma string_eqb_empty (s : string) : String.eqb s "" = true <-> s = "".
Proof. apply String.eqb_eq. Qed.

Lemma ascii_eqb_true (a b : ascii) : ascii_eqb a b = true <-> a = b.
Proof. unfold ascii_eqb. apply bool_decide_eq_true. Qed.

Lemma ascii_eqb_refl (a : ascii) : ascii_eqb a a = true.
Proof. apply ascii_eqb_true. reflexivity. Qed.

Lemma split_on_nonempty (c : ascii) (s : string) : split_on c s <> [].
Proof.
  induction s as [|a s IH]; simpl; [discriminate|].
  destruct (ascii_eqb a c); [discriminate|].
  destruct (split_on c s); discriminate.
Qed.

Lemma split_on_app (c : ascii) (h t : string) :
  split_on c (h +:+ String c t) = split_on c h ++ split_on c t.
Proof.
  induction h as [|a h IH].
  - simpl. rewrite ascii_eqb_refl. reflexivity.
  - rewrite string_app_cons. simpl. rewrite IH.
    destruct (ascii_eqb a c); [reflexivity|].
    pose proof (split_on_nonempty c h) as Hne.
    destruct (split_on c h); [congruence | reflexivity].
Qed.

Lemma split_on_absent (c : ascii) (s : string) :
  contains c s = false -> split_on c s = [s].
Proof.
  induction s as [|a s IH]; simpl; [reflexivity|].
  intros H. apply orb_false_iff in H as [Ha Hs].
  rewrite Ha, (IH Hs). reflexivity.
Qed.

Lemma last_app_nonempty {A} (l1 l2 : list A) (d : A) :
  l2 <> [] -> List.last (l1 ++ l2) d = List.last l2 d.
Proof.
  intros Hne. induction l1 as [|x l1 IH]; [reflexivity|].
  simpl. destruct (l1 ++ l2) eqn:E; [|exact IH].
  apply app_eq_nil in E as [_ E]. congruence.
Qed.

(** [spec.rsplit(':')[-1]] is the text after the last colon. *)
Lemma after_last_colon (host container : string) :
  contains ":" container = false ->
  List.last (split_on ":" (host +:+ String ":" container)) "" = container.
Proof.
  intros H. rewrite split_on_app, last_app_nonempty by apply split_on_nonempty.
  rewrite (split_on_absent _ _ H). reflexivity.
Qed.

Lemma contains_app (c : ascii) (low high : string) :
  contains c (low +:+ String c high) = true.
Proof.
  induction low as [|a low IH].
  - simpl. rewrite ascii_eqb_refl. reflexivity.
  - rewrite string_app_cons. simpl. rewrite IH. apply orb_true_r.
Qed.

Lemma split_first_app (c : ascii) (low high : string) :
  contains c low = false ->
  split_first c (low +:+ String c high) = (low, high).
Proof.
  induction low as [|a low IH].
  - simpl. rewrite ascii_eqb_refl. reflexivity.
  - intros H. simpl in H. apply orb_false_iff in H as [Ha Hs].
    rewrite string_app_cons. simpl. rewrite Ha, (IH Hs). reflexivity.
Qed.

End Strings.

(** ** Loops *)

Lemma for_each_app {A S} (body : S -> A -> outcome S) (acc : S) (xs ys : list A) :
  for_each body acc (xs ++ ys) = (acc' ← for_each body acc xs; for_each body acc' ys).
Proof.
  revert acc. induction xs as [|x xs IH]; intros acc; [reflexivity|].
  simpl. destruct (body acc x); simpl; auto.
Qed.

Lemma for_each_ext {A S} (f g : S -> A -> outcome S) (acc : S) (xs : list A) :
  (forall s x, In x xs -> f s x = g s x) ->
  for_each f acc xs = for_each g acc xs.
Proof.
  revert acc. induction xs as [|x xs IH]; intros acc H; [reflexivity|].
  simpl. rewrite (H acc x) by (left; reflexivity).
  destruct (g acc x); simpl; auto.
  apply IH. intros s y Hy. apply H. right. exact Hy.
Qed.

Lemma bind_Ok {A B} (m : outcome A) (f : A -> outcome B) (b : B) :
  (a ← m; f a) = Ok b -> exists a, m = Ok a /\ f a = Ok b.
Proof. destruct m as [a| |]; simpl; [eauto | discriminate | discriminate]. Qed.

Lemma fmap_Ok {A B} (m : outcome A) (f : A -> B) (b : B) :
  f <$> m = Ok b -> exists a, m = Ok a /\ f a = b.
Proof.
  destruct m as [a| |]; simpl; [|discriminate|discriminate].
  intros H. injection H as H. eauto.
Qed.

(** ** The translation table *)

Section TranslationTable.

Variable metadata : gmap string pyval.

Lemma translate_absent config e :
  metadata !! fst e = None -> translate metadata config e = Ok config.
Proof. destruct e as [src [tgt tr]]. simpl. intros ->. reflexivity. Qed.

Lemma translate_present config src tgt tr value config' :
  metadata !! src = Some value ->
  translate metadata config (src, (tgt, tr)) = Ok config' ->
  exists r, run tr value = Ok r /\ config' = <[tgt := r]> config.
Proof.
  simpl. intros ->. intros H. apply bind_Ok in H as (r & Hr & H).
  injection H as <-. exists r. split; [exact Hr | reflexivity].
Qed.

(** A target that no present source key writes keeps its value. *)
Lemma translations_frame table : forall config config' k,
  for_each (translate metadata) config table = Ok config' ->
  (forall e, In e table -> target e = k -> metadata !! fst e = None) ->
  config' !! k = config !! k.
Proof.
  induction table as [|e table IH]; intros config config' k H Hk.
  - simpl in H. injection H as <-. reflexivity.
  - simpl in H. apply bind_Ok in H as (c1 & He & H).
    rewrite (IH c1 config' k H) by (intros e' He'; apply Hk; right; exact He').
    destruct e as [src [tgt tr]].
    destruct (metadata !! src) as [value|] eqn:Hsrc.
    + destruct (translate_present _ _ _ _ _ _ Hsrc He) as (r & _ & ->).
      apply lookup_insert_ne. intros <-.
      specialize (Hk (src, (tgt, tr)) (or_introl eq_refl) eq_refl).
      simpl in Hk. congruence.
    + rewrite translate_absent in He by exact Hsrc. injection He as <-. reflexivity.
Qed.

(** A present source key writes its translated value to its target. *)
Lemma translations_hit table : NoDup (map target table) ->
  forall config config' src tgt tr value,
  In (src, (tgt, tr)) table ->
  metadata !! src = Some value ->
  for_each (translate metadata) config table = Ok config' ->
  exists r, run tr value = Ok r /\ config' !! tgt = Some r.
Proof.
  induction table as [|e table IH]; intros Hnd config config' src tgt tr value Hin Hsrc H.
  - destruct Hin.
  - simpl in Hnd. apply NoDup_cons in Hnd as [Hfresh Hnd].
    simpl in H. apply bind_Ok in H as (c1 & He & H).
    destruct Hin as [-> | Hin].
    + destruct (translate_present _ _ _ _ _ _ Hsrc He) as (r & Hr & ->).
      exists r. split; [exact Hr|].
      rewrite (translations_frame table _ _ tgt H).
      * apply lookup_insert_eq.
      * intros e' He' Ht. exfalso. apply Hfresh. simpl.
        apply list_elem_of_In, in_map_iff. exists e'. split; [exact Ht | exact He'].
    + eapply IH; eauto.
Qed.

End TranslationTable.

Lemma targets_distinct : NoDup (map target TRANSLATORS).
Proof. apply (bool_decide_unpack _). vm_compute. exact I. Qed.

(** ** Exposed ports *)

Lemma expose_all_lookup (ports : list Z) : forall (acc : gmap string pyval) k,
  expose_all acc ports !! k =
  if decide (k ∈ map py_str ports) then Some empty_dict else acc !! k.
Proof.
  unfold expose_all.
  induction ports as [|q ports IH]; intros acc k.
  - destruct (decide (k ∈ map py_str [])) as [H|H]; [|reflexivity].
    apply elem_of_nil in H. destruct H.
  - cbn [fold_left map]. rewrite IH.
    destruct (decide (k ∈ map py_str ports)) as [Hin|Hout];
      destruct (decide (k ∈ py_str q :: map py_str ports)) as [Hin'|Hout'].
    + reflexivity.
    + exfalso. apply Hout'. right. exact Hin.
    + apply elem_of_cons in Hin' as [-> | Hin']; [|contradiction].
      apply lookup_insert_eq.
    + apply lookup_insert_ne. intros <-. apply Hout'. left.
Qed.

Lemma in_py_range (lo hi p : Z) : p ∈ py_range lo (hi + 1) <-> (lo <= p <= hi)%Z.
Proof. unfold py_range. rewrite elem_of_seqZ. lia. Qed.

(** The loop body on a range [low-high]. *)
Lemma expose_range acc low high lo hi :
  contains ":" (low +:+ String "-" high) = false ->
  contains "-" low = false ->
  py_int low = Ok lo -> py_int high = Ok hi ->
  expose acc (PStr (low +:+ String "-" high)) =
  Ok (expose_all acc (py_range lo (hi + 1))).
Proof.
  intros Hcolon Hdash Hlo Hhi. unfold expose.
  rewrite (split_on_absent _ _ Hcolon). simpl List.last.
  rewrite contains_app, (split_first_app _ _ _ Hdash), Hlo, Hhi. reflexivity.
Qed.

(** The loop body uses only what follows the last colon. *)
Lemma expose_container acc host container :
  contains ":" container = false ->
  expose acc (PStr (host +:+ String ":" container)) = expose acc (PStr container).
Proof.
  intros H. unfold expose.
  rewrite (after_last_colon _ _ H), (split_on_absent _ _ H). reflexivity.
Qed.

Lemma NoDup_map_inj {A B} (f : A -> B) (l : list A) (x y : A) :
  NoDup (map f l) -> In x l -> In y l -> f x = f y -> x = y.
Proof.
  induction l as [|z l IH]; intros Hnd Hx Hy Hf; [destruct Hx|].
  simpl in Hnd. apply NoDup_cons in Hnd as [Hz Hnd].
  assert (forall w, In w l -> f w <> f z) as Hfresh.
  { intros w Hw Hwz. apply Hz. rewrite <- Hwz.
    apply list_elem_of_In, in_map. exact Hw. }
  destruct Hx as [<-|Hx], Hy as [<-|Hy].
  - reflexivity.
  - exfalso. exact (Hfresh y Hy (eq_sym Hf)).
  - exfalso. exact (Hfresh x Hx Hf).
  - auto.
Qed.

(** ** C6: ports *)

Lemma config_exposed_ports metadata config ports :
  metadata !! "ports" = Some ports ->
  metadata_to_image_config metadata = Ok config ->
  exists exposed, ports_to_exposed_ports ports = Ok exposed /\
                  config !! "ExposedPorts" = Some exposed.
Proof.
  intros Hports H.
  apply (translations_hit metadata TRANSLATORS targets_distinct
           default_config config "ports" "ExposedPorts" (Some ports_to_exposed_ports) ports);
    [|exact Hports|exact H].
  simpl. tauto.
Qed.

Lemma config_ports_congruence metadata ports ports' :
  ports_to_exposed_ports ports = ports_to_exposed_ports ports' ->
  metadata_to_image_config (<["ports" := ports]> metadata) =
  metadata_to_image_config (<["ports" := ports']> metadata).
Proof.
  intros Heq. unfold metadata_to_image_config. apply for_each_ext.
  intros config e He. simpl in He.
  repeat (destruct He as [<- | He];
          [unfold translate; rewrite ?lookup_insert_eq, ?lookup_insert_ne by discriminate;
           rewrite ?Heq; reflexivity|]).
  destruct He.
Qed.

(** C6. In [metadata_to_image_config], (1) the ports entry
    [["8080-8082"]] yields [ExposedPorts = {"8080": {}, "8081": {},
    "8082": {}}]; (2) a ports entry naming a range [low-high], with or
    without a host part before a colon, yields exactly one key [str(p)] per
    port [p] of the inclusive range; (3) for a ["host:container"] entry only
    the part after the last colon is used: the result is that of the entry
    [container] alone. *)
Theorem ports_expand_to_exposed_ports :
  (exists config,
      metadata_to_image_config {[ "ports" := PList [PStr "8080-8082"] ]} = Ok config /\
      config !! "ExposedPorts" =
        Some (PDict {[ "8080" := empty_dict; "8081" := empty_dict;
                       "8082" := empty_dict ]}))
  /\ (forall metadata config spec low high lo hi,
        metadata !! "ports" = Some (PList [PStr spec]) ->
        (spec = low +:+ String "-" high \/
         exists host, spec = host +:+ String ":" (low +:+ String "-" high)) ->
        contains ":" (low +:+ String "-" high) = false ->
        contains "-" low = false ->
        py_int low = Ok lo -> py_int high = Ok hi ->
        metadata_to_image_config metadata = Ok config ->
        exists exposed,
          config !! "ExposedPorts" = Some (PDict exposed) /\
          (forall p, (lo <= p <= hi)%Z -> exposed !! py_str p = Some empty_dict) /\
          (forall key, is_Some (exposed !! key) ->
                       exists p, (lo <= p <= hi)%Z /\ key = py_str p))
  /\ (forall metadata before after host container,
        contains ":" container = false ->
        metadata_to_image_config
          (<["ports" := PList (before ++ PStr (host +:+ String ":" container) :: after)]>
             metadata) =
        metadata_to_image_config
          (<["ports" := PList (before ++ PStr container :: after)]> metadata)).
Proof.
  split; [|split].
  - exists (<["ExposedPorts" :=
               PDict {[ "8080" := empty_dict; "8081" := empty_dict;
                        "8082" := empty_dict ]}]> default_config).
    split; reflexivity.
  - intros metadata config spec low high lo hi Hports Hspec Hcolon Hdash Hlo Hhi H.
    destruct (config_exposed_ports _ _ _ Hports H) as (exposed & Hexp & Hcfg).
    assert (expose ∅ (PStr spec) = Ok (expose_all ∅ (py_range lo (hi + 1)))) as Hone.
    { destruct Hspec as [-> | [host ->]].
      - apply expose_range; assumption.
      - rewrite expose_container by exact Hcolon. apply expose_range; assumption. }
    assert (ports_to_exposed_ports (PList [PStr spec]) =
            (to_return ← expose ∅ (PStr spec); Ok (PDict to_return))) as Hsingle.
    { unfold ports_to_exposed_ports. cbn [py_iter for_each mbind outcome_bind].
      destruct (expose ∅ (PStr spec)); reflexivity. }
    rewrite Hsingle, Hone in Hexp. simpl in Hexp. injection Hexp as <-.
    eexists. split; [exact Hcfg|]. split.
    + intros p Hp. rewrite expose_all_lookup, decide_True; [reflexivity|].
      apply list_elem_of_In, in_map, list_elem_of_In, in_py_range. exact Hp.
    + intros key Hkey. rewrite expose_all_lookup in Hkey.
      destruct (decide (key ∈ map py_str (py_range lo (hi + 1)))) as [Hin|Hout].
      * apply list_elem_of_In, in_map_iff in Hin as (p & <- & Hp).
        exists p. split; [|reflexivity].
        apply in_py_range, list_elem_of_In. exact Hp.
      * rewrite lookup_empty in Hkey. destruct Hkey as [? Hkey]. discriminate.
  - intros metadata before after host container Hcolon.
    apply config_ports_congruence.
    unfold ports_to_exposed_ports. cbn [py_iter mbind outcome_bind].
    rewrite !for_each_app.
    destruct (for_each expose ∅ before) as [acc| |]; [|reflexivity|reflexivity].
    cbn [for_each mbind outcome_bind].
    rewrite expose_container by exact Hcolon. reflexivity.
Qed.

Lemma ports_expand_to_exposed_ports_witness :
  (exists exposed,
      (<["ExposedPorts" := PDict {[ "5000" := empty_dict; "5001" := empty_dict;
                                     "5002" := empty_dict ]}]> default_config)
        !! "ExposedPorts" = Some (PDict exposed) /\
      (forall p, (5000 <= p <= 5002)%Z -> exposed !! py_str p = Some empty_dict) /\
      (forall key, is_Some (exposed !! key) ->
                   exists p, (5000 <= p <= 5002)%Z /\ key = py_str p))
  /\ metadata_to_image_config
       (<["ports" := PList ([] ++ [PStr ("127.0.0.1:80" +:+ String ":" "8080")])]> ∅) =
     metadata_to_image_config (<["ports" := PList ([] ++ [PStr "8080"])]> ∅).
Proof.
  destruct ports_expand_to_exposed_ports as (_ & Hrange & Hcontainer).
  split.
  - apply (Hrange {[ "ports" := PList [PStr "127.0.0.1:5000-5002"] ]} _
             "127.0.0.1:5000-5002" "5000" "5002").
    + reflexivity.
    + right. exists "127.0.0.1". reflexivity.
    + reflexivity.
    + reflexivity.
    + reflexivity.
    + reflexivity.
    + reflexivity.
  - apply (Hcontainer ∅ [] [] "127.0.0.1:80" "8080"). reflexivity.
Defined.

(** ** C7: unrecognized keys and defaults *)

(** C7 as stated fails: with no [entrypoint] in the metadata the target
    [Entrypoint] keeps its default, which is [None], not an empty string,
    list or mapping. *)
Lemma absent_key_default_not_always_empty :
  ~ (forall metadata config src tgt tr,
        In (src, (tgt, tr)) TRANSLATORS ->
        metadata !! src = None ->
        metadata_to_image_config metadata = Ok config ->
        config !! tgt = Some (PStr "") \/ config !! tgt = Some (PList []) \/
        config !! tgt = Some empty_dict).
Proof.
  intros H.
  specialize (H ∅ default_config "entrypoint" "Entrypoint" None).
  assert (default_config !! "Entrypoint" = Some PNone) as Hnone
    by reflexivity.
  rewrite Hnone in H.
  destruct H as [H | [H | H]]; try discriminate.
  - simpl. tauto.
  - reflexivity.
  - reflexivity.
Qed.

(** C7, amended. For every metadata mapping, (1) a source key outside the
    translation table does not affect the result, and (2) every target field
    whose source key is absent keeps the value of the initial [config]:
    (3) the empty string for [Hostname], [Domainname], [User], [Cmd] and
    [WorkingDir], the empty list for [Env] and [OnBuild], the empty mapping
    for [ExposedPorts], [Volumes] and [Labels], and [None] for
    [Entrypoint]. *)
Theorem unrecognized_keys_ignored_defaults_kept :
  (forall metadata key value,
      ~ In key (map fst TRANSLATORS) ->
      metadata_to_image_config (<[key := value]> metadata) =
      metadata_to_image_config metadata)
  /\ (forall metadata config src tgt tr,
        In (src, (tgt, tr)) TRANSLATORS ->
        metadata !! src = None ->
        metadata_to_image_config metadata = Ok config ->
        config !! tgt = default_config !! tgt)
  /\ (default_config !! "Hostname" = Some (PStr "") /\
      default_config !! "Domainname" = Some (PStr "") /\
      default_config !! "User" = Some (PStr "") /\
      default_config !! "ExposedPorts" = Some empty_dict /\
      default_config !! "Env" = Some (PList []) /\
      default_config !! "Cmd" = Some (PStr "") /\
      default_config !! "WorkingDir" = Some (PStr "") /\
      default_config !! "Entrypoint" = Some PNone /\
      default_config !! "Volumes" = Some empty_dict /\
      default_config !! "Labels" = Some empty_dict /\
      default_config !! "OnBuild" = Some (PList [])).
Proof.
  split; [|split].
  - intros metadata key value Hkey. unfold metadata_to_image_config.
    apply for_each_ext. intros config [src [tgt tr]] He.
    assert (key <> src) as Hne.
    { intros ->. apply Hkey. apply in_map_iff. exists (src, (tgt, tr)). auto. }
    unfold translate. rewrite lookup_insert_ne by exact Hne. reflexivity.
  - intros metadata config src tgt tr Hin Hsrc H.
    apply (translations_frame metadata TRANSLATORS _ _ tgt H).
    intros e He Ht.
    assert (e = (src, (tgt, tr))) as ->; [|exact Hsrc].
    apply (NoDup_map_inj target TRANSLATORS); auto using targets_distinct.
  - repeat split; reflexivity.
Qed.

Lemma unrecognized_keys_ignored_defaults_kept_witness :
  metadata_to_image_config (<["image" := PStr "centos:7"]> {[ "user" := PStr "root" ]}) =
  metadata_to_image_config {[ "user" := PStr "root" ]}
  /\ (<["User" := PStr "root"]> default_config) !! "Entrypoint" =
     default_config !! "Entrypoint".
Proof.
  destruct unrecognized_keys_ignored_defaults_kept as (Hignored & Hkept & _).
  split.
  - apply Hignored. vm_compute. intuition discriminate.
  - apply (Hkept {[ "user" := PStr "root" ]} _ "entrypoint" "Entrypoint" None).
    + simpl. tauto.
    + reflexivity.
    + reflexivity.
Defined.

(** ** C10: content of a role file *)

Section RoleContent.

Variable role_include_load : pyval -> outcome string.
Variable yaml_round_trip_load : string -> outcome pyval.

Let get_content := get_content_from_role role_include_load yaml_round_trip_load.

(** C10. Once the role is resolved, [get_content_from_role] returns the
    empty mapping, raising nothing, whenever the requested file does not
    exist under the role path; when it exists the result is that of loading
    what is read from it. The same holds of [get_metadata_from_role]
    ([meta/container.yml]) and [get_defaults_from_role]
    ([defaults/main.yml]). *)
Theorem missing_role_file_gives_empty_mapping :
  forall fs role_name role_path,
    resolve_role_to_path role_include_load role_name = Ok role_path ->
    (forall relative_path,
        let metadata_file := path_join role_path relative_path in
        (path_exists fs metadata_file = false ->
         get_content fs role_name relative_path = Ok empty_dict)
        /\ (path_exists fs metadata_file = true ->
            get_content fs role_name relative_path =
            (ifs ← open_read fs metadata_file; yaml_round_trip_load ifs)))
    /\ (path_exists fs (path_join role_path "meta/container.yml") = false ->
        get_metadata_from_role role_include_load yaml_round_trip_load fs role_name =
        Ok empty_dict)
    /\ (path_exists fs (path_join role_path "defaults/main.yml") = false ->
        get_defaults_from_role role_include_load yaml_round_trip_load fs role_name =
        Ok empty_dict).
Proof.
  intros fs role_name role_path Hres.
  assert (forall relative_path,
             path_exists fs (path_join role_path relative_path) = false ->
             get_content fs role_name relative_path = Ok empty_dict) as Hmissing.
  { intros relative_path Hno. unfold get_content, get_content_from_role.
    rewrite Hres. simpl. rewrite Hno. reflexivity. }
  split; [|split].
  - intros relative_path metadata_file. split; [apply Hmissing|].
    intros Hyes. unfold get_content, get_content_from_role.
    rewrite Hres. simpl. fold metadata_file. rewrite Hyes. reflexivity.
  - apply (Hmissing "meta/container.yml").
  - apply (Hmissing "defaults/main.yml").
Qed.

End RoleContent.

Lemma missing_role_file_gives_empty_mapping_witness :
  get_metadata_from_role Example.role_include_load Example.yaml_load
    Example.fs (PStr "web") = Ok empty_dict.
Proof.
  apply (missing_role_file_gives_empty_mapping
           Example.role_include_load Example.yaml_load Example.fs (PStr "web")
           "/roles/web").
  - reflexivity.
  - reflexivity.
Defined.

(** ** Paths and lookups *)

Lemma descend_app (cs ds : list string) : forall n,
  descend n (cs ++ ds) =
  match descend n cs with
  | Some n' => descend n' ds
  | None => None
  end.
Proof.
  induction cs as [|c cs IH]; intros n; [reflexivity|].
  simpl. destruct n as [data|es]; [reflexivity|].
  destruct (entry c es); [apply IH | reflexivity].
Qed.

Lemma ends_with_slash_inv (top : string) :
  ends_with_slash top = true -> exists top', top = top' +:+ "/".
Proof.
  induction top as [|a top IH]; [discriminate|].
  destruct top as [|b top].
  - simpl. intros H. apply ascii_eqb_true in H as ->. exists "". reflexivity.
  - intros H. destruct (IH H) as [top' ->]. exists (String a top'). reflexivity.
Qed.

Lemma components_app (top rest : string) :
  components (top +:+ String "/" rest) = components top ++ components rest.
Proof. unfold components. rewrite split_on_app. apply List.filter_app. Qed.

Lemma valid_name_inv (name : string) :
  valid_name name = true -> name <> "" /\ contains "/" name = false.
Proof.
  unfold valid_name. intros H. apply andb_true_iff in H as [H1 H2].
  apply negb_true_iff in H1, H2. split; [|exact H2].
  intros ->. discriminate.
Qed.

Lemma components_name (name : string) :
  valid_name name = true -> components name = [name].
Proof.
  intros H. apply valid_name_inv in H as [Hne Hslash].
  unfold components. rewrite (split_on_absent _ _ Hslash). simpl.
  destruct (String.eqb_spec name ""); [contradiction | reflexivity].
Qed.

Lemma components_join (top name : string) :
  valid_name name = true ->
  components (path_join top name) = components top ++ [name].
Proof.
  intros Hname. pose proof (components_name _ Hname) as Hc.
  apply valid_name_inv in Hname as [Hne Hslash].
  unfold path_join.
  assert (starts_with_slash name = false) as ->.
  { destruct name as [|a name]; [reflexivity|].
    simpl in Hslash. apply orb_false_iff in Hslash as [Ha _]. exact Ha. }
  destruct (String.eqb_spec top "") as [->|Hntop].
  - simpl. exact Hc.
  - simpl. destruct (ends_with_slash top) eqn:Hend.
    + apply ends_with_slash_inv in Hend as [top' ->].
      rewrite string_app_assoc. change ("/" +:+ name) with (String "/" name).
      rewrite !components_app, Hc. change (components "") with (@nil string).
      rewrite app_nil_r. reflexivity.
    + change ("/" +:+ name) with (String "/" name).
      rewrite components_app, Hc. reflexivity.
Qed.

Lemma lookup_join (fs : node) (top name : string) :
  valid_name name = true ->
  fs_lookup fs (path_join top name) =
  match fs_lookup fs top with
  | Some n => descend n [name]
  | None => None
  end.
Proof.
  intros H. unfold fs_lookup. rewrite (components_join _ _ H). apply descend_app.
Qed.

Lemma entry_distinct (es : list (string * node)) (name : string) (sub : node) :
  distinct (map fst es) = true -> In (name, sub) es -> entry name es = Some sub.
Proof.
  induction es as [|[n x] es IH]; intros Hd Hin; [destruct Hin|].
  simpl in Hd. apply andb_true_iff in Hd as [Hfresh Hd].
  apply negb_true_iff in Hfresh. simpl.
  destruct Hin as [Heq | Hin].
  - injection Heq as -> ->. rewrite String.eqb_refl. reflexivity.
  - destruct (String.eqb_spec n name) as [->|Hne]; [|auto].
    exfalso. assert (existsb (String.eqb name) (map fst es) = true) as Hex; [|congruence].
    apply existsb_exists. exists name. split; [|apply String.eqb_refl].
    apply in_map_iff. exists (name, sub). auto.
Qed.

(** In a well-formed directory found at [top], the path of each entry leads
    to that entry. *)
Lemma lookup_entry (fs : node) (top : string) (es : list (string * node))
    (name : string) (sub : node) :
  fs_lookup fs top = Some (Dir es) -> wf_node (Dir es) = true ->
  In (name, sub) es ->
  fs_lookup fs (path_join top name) = Some sub.
Proof.
  intros Htop Hwf Hin. simpl in Hwf. apply andb_true_iff in Hwf as [Hd Hall].
  rewrite forallb_forall in Hall. specialize (Hall _ Hin). simpl in Hall.
  apply andb_true_iff in Hall as [Hname _].
  rewrite (lookup_join _ _ _ Hname), Htop. simpl.
  rewrite (entry_distinct _ _ _ Hd Hin). reflexivity.
Qed.

Lemma wf_entry (es : list (string * node)) (name : string) (sub : node) :
  wf_node (Dir es) = true -> In (name, sub) es -> wf_node sub = true.
Proof.
  intros Hwf Hin. simpl in Hwf. apply andb_true_iff in Hwf as [_ Hall].
  rewrite forallb_forall in Hall. specialize (Hall _ Hin). simpl in Hall.
  apply andb_true_iff in Hall as [_ H]. exact H.
Qed.

Lemma node_forall_ind (P : node -> Prop) :
  (forall data, P (File data)) ->
  (forall es, Forall (fun e => P (snd e)) es -> P (Dir es)) ->
  forall n, P n.
Proof.
  intros Hfile Hdir. fix IH 1. intros [data|es]; [apply Hfile|].
  apply Hdir. induction es as [|[name sub] es IHes]; constructor.
  - apply IH.
  - exact IHes.
Qed.

(** ** The running hash *)

Lemma update_update (st : state) (a b : string) :
  update (update st a) b = update st (a +:+ b).
Proof. unfold update. simpl. rewrite string_app_assoc. reflexivity. Qed.

Lemma update_empty (st : state) : update st "" = st.
Proof. destruct st. unfold update. simpl. rewrite string_app_nil_r. reflexivity. Qed.

Lemma blocksize_succ : exists n, blocksize = S n.
Proof.
  assert (0 < blocksize) as H.
  { with_strategy transparent [blocksize] (unfold blocksize).
    apply Nat.mul_pos_pos; lia. }
  exists (Nat.pred blocksize). lia.
Qed.

Lemma string_take_empty (n : nat) (s : string) :
  string_take (S n) s = "" <-> s = "".
Proof. destruct s; simpl; split; intros H; congruence. Qed.

(** The read loop feeds the blocks, each followed by the separator. *)
Lemma read_blocks_spec (turns : nat) : forall st data,
  read_blocks turns st data =
  update st (join_all (map (fun block => block +:+ separator) (blocks_of turns data))).
Proof.
  destruct blocksize_succ as [n Hn].
  induction turns as [|turns IH]; intros st data.
  - simpl. rewrite update_empty. reflexivity.
  - cbn [read_blocks blocks_of].
    destruct (String.eqb_spec (string_take blocksize data) "") as [He|Hne].
    + rewrite Hn in He. apply string_take_empty in He as ->.
      simpl. rewrite update_empty. reflexivity.
    + destruct data as [|a data].
      { exfalso. apply Hne. rewrite Hn. reflexivity. }
      rewrite IH. cbn [map join_all fold_right].
      rewrite !update_update, !string_app_assoc. reflexivity.
Qed.

Lemma hash_file_spec (fs : node) (st : state) (path data : string) :
  fs_lookup fs path = Some (File data) ->
  hash_file fs st path =
  Ok (update st (join_all (map (fun block => block +:+ separator) (blocks data)))).
Proof.
  intros H. unfold hash_file, open_read. rewrite H. cbn [mbind outcome_bind].
  rewrite read_blocks_spec. reflexivity.
Qed.

(** ** hash_dir on a well-formed directory *)

Section HashDir.

Variable fs : node.

Lemma hash_dir_unfold (st : state) (dir_path : string) :
  hash_dir fs st dir_path = for_each (item_body fs) st (os_walk fs dir_path).
Proof.
  unfold hash_dir. apply for_each_ext.
  intros s [[root dirs] files] _. reflexivity.
Qed.

Lemma files_loop (top : string) (es : list (string * node)) :
  fs_lookup fs top = Some (Dir es) -> wf_node (Dir es) = true ->
  forall l, incl l es -> forall st,
  for_each (file_body fs top) st (nondirs_of l) = Ok (update st (files_hash_input top l)).
Proof.
  intros Htop Hwf. induction l as [|[name [data|sub]] l IH]; intros Hincl st.
  - simpl. rewrite update_empty. reflexivity.
  - cbn [nondirs_of files_hash_input for_each]. change (file_body fs top st name) with
      (hash_file fs (update (update st (path_join top name)) "::") (path_join top name)).
    rewrite (hash_file_spec fs _ _ data).
    + cbn [mbind outcome_bind]. rewrite IH by (intros x Hx; apply Hincl; right; exact Hx).
      f_equal. rewrite !update_update. f_equal.
      unfold file_hash_input, separator. rewrite !string_app_assoc. reflexivity.
    + apply (lookup_entry fs top es); auto. apply Hincl. left. reflexivity.
  - cbn [nondirs_of files_hash_input]. apply IH.
    intros x Hx. apply Hincl. right. exact Hx.
Qed.

Lemma walk_loop : forall n top st,
  wf_node n = true -> fs_lookup fs top = Some n ->
  for_each (item_body fs) st (walk top n) = Ok (update st (tree_hash_input top n)).
Proof.
  induction n as [data|es IH] using node_forall_ind; intros top st Hwf Htop.
  - simpl. rewrite update_empty. reflexivity.
  - cbn [walk tree_hash_input for_each]. change (item_body fs st (top, dirs_of es, nondirs_of es)) with
      (for_each (file_body fs top) st (nondirs_of es)).
    rewrite (files_loop top es Htop Hwf es (incl_refl es)).
    cbn [mbind outcome_bind].
    rewrite <- update_update. generalize (update st (files_hash_input top es)).
    assert (incl es es) as Hincl by apply incl_refl.
    revert Hincl IH. generalize es at 1 3 4 5 as l.
    induction l as [|[name sub] l IHl]; intros Hincl IH st'.
    + simpl. rewrite update_empty. reflexivity.
    + apply Forall_cons_iff in IH as [IHsub IH]. simpl in IHsub.
      cbn [flat_map map join_all fold_right fst snd]. rewrite for_each_app.
      assert (In (name, sub) es) as Hin by (apply Hincl; left; reflexivity).
      rewrite IHsub.
      * cbn [mbind outcome_bind].
        rewrite IHl; [|intros x Hx; apply Hincl; right; exact Hx|exact IH].
        rewrite update_update. reflexivity.
      * exact (wf_entry es name sub Hwf Hin).
      * exact (lookup_entry fs top es name sub Htop Hwf Hin).
Qed.

(** [hash_dir] never fails on a well-formed directory, and feeds the hash
    the input the specification describes. *)
Lemma hash_dir_spec (st : state) (dir_path : string) (n : node) :
  fs_lookup fs dir_path = Some n -> wf_node n = true ->
  hash_dir fs st dir_path = Ok (update st (tree_hash_input dir_path n)).
Proof.
  intros Hn Hwf. rewrite hash_dir_unfold. unfold os_walk. rewrite Hn.
  apply walk_loop; assumption.
Qed.

End HashDir.

(** ** Blocks of a file *)

Lemma string_take_drop (n : nat) : forall s, string_take n s +:+ string_drop n s = s.
Proof.
  induction n as [|n IH]; intros [|a s]; try reflexivity.
  simpl. rewrite string_app_cons, IH. reflexivity.
Qed.

Lemma string_drop_length (n : nat) : forall s,
  String.length (string_drop n s) <= String.length s.
Proof.
  induction n as [|n IH]; intros [|a s]; simpl; try lia.
  specialize (IH s). lia.
Qed.

Lemma string_take_length (n : nat) : forall s,
  String.length (string_take n s) <= n.
Proof.
  induction n as [|n IH]; intros [|a s]; simpl; try lia.
  specialize (IH s). lia.
Qed.

Lemma string_take_full (n : nat) : forall s,
  string_drop n s <> "" -> String.length (string_take n s) = n.
Proof.
  induction n as [|n IH]; intros [|a s] H; simpl in *; try congruence.
  rewrite IH by exact H. reflexivity.
Qed.

Lemma blocks_of_empty (turns : nat) : blocks_of turns "" = [].
Proof. destruct turns; reflexivity. Qed.

Lemma blocks_of_join (turns : nat) : forall data,
  String.length data < turns -> join_all (blocks_of turns data) = data.
Proof.
  destruct blocksize_succ as [n Hn].
  induction turns as [|turns IH]; intros data Hlen; [lia|].
  destruct data as [|a data]; [reflexivity|].
  cbn [blocks_of join_all fold_right]. fold (join_all (blocks_of turns (string_drop blocksize (String a data)))).
  rewrite IH; [apply string_take_drop|].
  rewrite Hn. simpl. simpl in Hlen.
  pose proof (string_drop_length n data). lia.
Qed.

Lemma blocks_of_sizes (turns : nat) : forall data,
  Forall (fun block => 0 < String.length block <= blocksize) (blocks_of turns data).
Proof.
  destruct blocksize_succ as [n Hn].
  induction turns as [|turns IH]; intros data; [constructor|].
  destruct data as [|a data]; [constructor|].
  cbn [blocks_of]. constructor; [|apply IH].
  split; [|apply string_take_length].
  rewrite Hn. simpl. lia.
Qed.

Lemma blocks_of_full (turns : nat) : forall data (i : nat) block,
  blocks_of turns data !! i = Some block ->
  is_Some (blocks_of turns data !! S i) ->
  String.length block = blocksize.
Proof.
  induction turns as [|turns IH]; intros data i block Hi Hnext; [discriminate|].
  destruct data as [|a data]; [discriminate|].
  cbn [blocks_of] in Hi, Hnext.
  destruct i as [|i].
  - simpl in Hi, Hnext. injection Hi as <-. apply string_take_full.
    intros Hempty. rewrite Hempty, blocks_of_empty in Hnext.
    destruct Hnext as [? Hnext]. discriminate.
  - simpl in Hi, Hnext. exact (IH _ i block Hi Hnext).
Qed.

(** The blocks of a file: cut in order from its bytes, none empty, every
    one but the last of exactly [blocksize] bytes. *)
Lemma blocks_spec (data : string) :
  join_all (blocks data) = data
  /\ Forall (fun block => 0 < String.length block <= blocksize) (blocks data)
  /\ (forall (i : nat) block,
        blocks data !! i = Some block -> is_Some (blocks data !! S i) ->
        String.length block = blocksize).
Proof.
  unfold blocks. split; [|split].
  - apply blocks_of_join. lia.
  - apply blocks_of_sizes.
  - apply blocks_of_full.
Qed.

(** ** hash_role *)

Lemma meta_main_lookup (fs : node) (role_path : string) :
  fs_lookup fs (path_join (path_join role_path "meta") "main.yml") =
  match fs_lookup fs role_path with
  | Some n => descend n ["meta"; "main.yml"]
  | None => None
  end.
Proof.
  rewrite !lookup_join by reflexivity.
  destruct (fs_lookup fs role_path) as [n|]; [|reflexivity].
  symmetry. apply (descend_app ["meta"] ["main.yml"]).
Qed.

Section HashRole.

Variable role_include_load : pyval -> outcome string.
Variable yaml_safe_load : string -> outcome pyval.

Let resolve := resolve_role_to_path role_include_load.
Let dependencies := get_dependencies_for_role yaml_safe_load.
Let loop := for_dependencies role_include_load.
Let hash_role' := hash_role role_include_load yaml_safe_load.
Let fingerprint := get_role_fingerprint role_include_load yaml_safe_load.

Lemma hash_role_unfold depth fs st role_path :
  hash_role' (S depth) fs st role_path =
  (st1 ← hash_dir fs st role_path;
   deps ← dependencies fs role_path;
   loop (hash_role' depth fs) st1 deps).
Proof. reflexivity. Qed.

Lemma for_dependencies_app recurse (pre post : list (outcome pyval)) : forall st,
  loop recurse st (pre ++ post) = (st' ← loop recurse st pre; loop recurse st' post).
Proof.
  induction pre as [|next pre IH]; intros st; [reflexivity|].
  cbn [app]. unfold loop in *. cbn [for_dependencies].
  destruct next as [dependency| |]; [|reflexivity|reflexivity].
  cbn [mbind outcome_bind]. destruct (truthy dependency); [|apply IH].
  destruct (resolve_role_to_path role_include_load dependency) as [path| |];
    [|reflexivity|reflexivity].
  cbn [mbind outcome_bind].
  destruct (recurse (resolving dependency st) path); [apply IH|reflexivity|reflexivity].
Qed.

Lemma for_dependencies_filter recurse (deps : list (outcome pyval)) : forall st,
  loop recurse st (List.filter named deps) = loop recurse st deps.
Proof.
  induction deps as [|next deps IH]; intros st; [reflexivity|].
  cbn [List.filter]. unfold named at 1, skipped.
  destruct next as [dependency| |]; [|reflexivity|reflexivity].
  unfold loop in *. destruct (truthy dependency) eqn:Ht; cbn [negb].
  - cbn [for_dependencies mbind outcome_bind]. rewrite Ht.
    destruct (resolve_role_to_path role_include_load dependency) as [path| |];
      [|reflexivity|reflexivity].
    cbn [mbind outcome_bind].
    destruct (recurse (resolving dependency st) path); [apply IH|reflexivity|reflexivity].
  - cbn [for_dependencies mbind outcome_bind]. rewrite Ht. apply IH.
Qed.

Lemma for_dependencies_named recurse st name post :
  truthy name = true ->
  loop recurse st (Ok name :: post) =
  (path ← resolve name;
   st' ← recurse (resolving name st) path;
   loop recurse st' post).
Proof.
  intros Ht. unfold loop. cbn [for_dependencies mbind outcome_bind]. rewrite Ht.
  reflexivity.
Qed.

(** A named entry of a loop that completes was resolved and hashed. *)
Lemma for_dependencies_split recurse st pre name post st' :
  truthy name = true ->
  loop recurse st (pre ++ Ok name :: post) = Ok st' ->
  exists st2 dependency_path st3,
    loop recurse st pre = Ok st2 /\
    resolve name = Ok dependency_path /\
    recurse (resolving name st2) dependency_path = Ok st3 /\
    loop recurse st3 post = Ok st'.
Proof.
  intros Ht H. rewrite for_dependencies_app in H.
  apply bind_Ok in H as (st2 & Hpre & H).
  rewrite for_dependencies_named in H by exact Ht.
  apply bind_Ok in H as (path & Hres & H).
  apply bind_Ok in H as (st3 & Hrec & H).
  exists st2, path, st3. auto.
Qed.

(** C9. In the loop of [hash_role], (1) a dependency entry without a role
    name yields [None], which the loop passes over; (2) the loop over the
    yielded names is the loop over those not passed over: the others add
    nothing to the hash input and nothing to the names handed to the
    resolver; (3) when the role is hashed, every named entry has been
    resolved and the role at the resolved path hashed recursively, into the
    running hash, between the entries before it and those after it. *)
Theorem unnamed_dependencies_are_skipped :
  (forall entry : gmap string pyval,
      entry !! "role" = None ->
      py_get (PDict entry) "role" PNone = Ok PNone /\ skipped (Ok PNone) = true)
  /\ (forall depth fs st role_path,
        hash_role' (S depth) fs st role_path =
        (st1 ← hash_dir fs st role_path;
         deps ← dependencies fs role_path;
         loop (hash_role' depth fs) st1 (List.filter named deps)))
  /\ (forall depth fs st role_path st1 deps st' pre name post,
        hash_dir fs st role_path = Ok st1 ->
        dependencies fs role_path = Ok deps ->
        hash_role' (S depth) fs st role_path = Ok st' ->
        deps = pre ++ Ok name :: post ->
        truthy name = true ->
        exists st2 dependency_path st3,
          loop (hash_role' depth fs) st1 pre = Ok st2 /\
          resolve name = Ok dependency_path /\
          hash_role' depth fs (resolving name st2) dependency_path = Ok st3 /\
          loop (hash_role' depth fs) st3 post = Ok st').
Proof.
  split; [|split].
  - intros entry Hrole. split; [|reflexivity].
    unfold py_get. rewrite Hrole. reflexivity.
  - intros depth fs st role_path. rewrite hash_role_unfold.
    destruct (hash_dir fs st role_path) as [st1| |]; [|reflexivity|reflexivity].
    cbn [mbind outcome_bind].
    destruct (dependencies fs role_path) as [deps| |]; [|reflexivity|reflexivity].
    cbn [mbind outcome_bind]. symmetry. apply for_dependencies_filter.
  - intros depth fs st role_path st1 deps st' pre name post Hdir Hdeps H -> Ht.
    rewrite hash_role_unfold, Hdir, Hdeps in H. cbn [mbind outcome_bind] in H.
    exact (for_dependencies_split _ _ _ _ _ _ Ht H).
Qed.

(** C8. When the dependency-declaration document of the role is malformed
    (the loader raises a parse error), [get_role_fingerprint] raises that
    parse error: it returns no digest. *)
Theorem malformed_dependency_document_raises :
  forall depth fs role_name role_path tree document,
    resolve role_name = Ok role_path ->
    fs_lookup fs role_path = Some tree -> wf_node tree = true ->
    open_read fs (path_join (path_join role_path "meta") "main.yml") = Ok document ->
    yaml_safe_load document = Raise ParseError ->
    fingerprint (S depth) fs role_name = Raise ParseError
    /\ ~ returns (fingerprint (S depth) fs role_name).
Proof.
  intros depth fs role_name role_path tree document Hres Htree Hwf Hopen Hload.
  assert (fingerprint (S depth) fs role_name = Raise ParseError) as H.
  { unfold fingerprint, get_role_fingerprint. fold resolve. rewrite Hres.
    cbn [mbind outcome_bind]. fold hash_role'. rewrite hash_role_unfold.
    rewrite (hash_dir_spec fs _ _ tree Htree Hwf). cbn [mbind outcome_bind].
    unfold dependencies, get_dependencies_for_role.
    rewrite Hopen. cbn [mbind outcome_bind]. rewrite Hload. reflexivity. }
  split; [exact H|]. intros [digest Hd]. congruence.
Qed.

(** C5. For a role whose dependency-declaration document declares no
    dependencies (no [dependencies] key, or an empty list),
    [get_role_fingerprint] is the SHA-256 of the hash input of the role's own
    tree and of nothing else: per file of the walk its path and a separator,
    then its blocks, each followed by a separator. The blocks of a file are
    cut in order from its bytes, none is empty, and each but the last has
    [blocksize] bytes. *)
Theorem fingerprint_without_dependencies :
  (forall depth fs role_name role_path tree document meta_main,
      resolve role_name = Ok role_path ->
      fs_lookup fs role_path = Some tree -> wf_node tree = true ->
      open_read fs (path_join (path_join role_path "meta") "main.yml") = Ok document ->
      yaml_safe_load document = Ok (PDict meta_main) ->
      (meta_main !! "dependencies" = None \/
       meta_main !! "dependencies" = Some (PList [])) ->
      fingerprint (S depth) fs role_name =
      Ok (SHA256.hexdigest (tree_hash_input role_path tree)))
  /\ (forall data,
        join_all (blocks data) = data /\
        Forall (fun block => 0 < String.length block <= blocksize) (blocks data) /\
        (forall (i : nat) block,
            blocks data !! i = Some block -> is_Some (blocks data !! S i) ->
            String.length block = blocksize)).
Proof.
  split; [|exact blocks_spec].
  intros depth fs role_name role_path tree document meta_main
         Hres Htree Hwf Hopen Hload Hnone.
  unfold fingerprint, get_role_fingerprint. fold resolve. rewrite Hres.
  cbn [mbind outcome_bind]. fold hash_role'. rewrite hash_role_unfold.
  rewrite (hash_dir_spec fs _ _ tree Htree Hwf). cbn [mbind outcome_bind].
  unfold dependencies, get_dependencies_for_role.
  rewrite Hopen. cbn [mbind outcome_bind]. rewrite Hload. cbn [mbind outcome_bind].
  assert (py_get (PDict meta_main) "dependencies" (PList []) = Ok (PList [])) as ->.
  { unfold py_get. destruct Hnone as [-> | ->]; reflexivity. }
  reflexivity.
Qed.

End HashRole.

Lemma unnamed_dependencies_are_skipped_witness :
  (py_get (PDict ∅) "role" PNone = Ok PNone /\ skipped (Ok PNone) = true)
  /\ exists st1,
       hash_dir Example.fs_unnamed initial "/roles/web" = Ok st1 /\
       exists st2 dependency_path st3,
         for_dependencies Example.role_include_load
           (hash_role Example.role_include_load Example.yaml_load 1 Example.fs_unnamed)
           st1 [Ok PNone] = Ok st2 /\
         resolve_role_to_path Example.role_include_load (PStr "db") = Ok dependency_path /\
         hash_role Example.role_include_load Example.yaml_load 1 Example.fs_unnamed
           (resolving (PStr "db") st2) dependency_path = Ok st3 /\
         for_dependencies Example.role_include_load
           (hash_role Example.role_include_load Example.yaml_load 1 Example.fs_unnamed)
           st3 [] =
         hash_role Example.role_include_load Example.yaml_load 2 Example.fs_unnamed
           initial "/roles/web".
Proof.
  destruct (unnamed_dependencies_are_skipped
              Example.role_include_load Example.yaml_load) as (Hnone & _ & Hnamed).
  split; [apply Hnone; reflexivity|].
  eexists. split; [vm_compute; reflexivity|].
  assert (exists st', hash_role Example.role_include_load Example.yaml_load 2
                        Example.fs_unnamed initial "/roles/web" = Ok st') as [st' Hst'].
  { eexists. vm_compute. reflexivity. }
  rewrite Hst'.
  apply (Hnamed 1 Example.fs_unnamed initial "/roles/web" _
           [Ok PNone; Ok (PStr "db")] st' [Ok PNone] (PStr "db") []).
  - vm_compute. reflexivity.
  - vm_compute. reflexivity.
  - exact Hst'.
  - reflexivity.
  - reflexivity.
Defined.

Lemma malformed_dependency_document_raises_witness :
  get_role_fingerprint Example.role_include_load Example.yaml_load 1
    Example.fs_malformed (PStr "web") = Raise ParseError
  /\ ~ returns (get_role_fingerprint Example.role_include_load Example.yaml_load 1
                  Example.fs_malformed (PStr "web")).
Proof.
  apply (malformed_dependency_document_raises
           Example.role_include_load Example.yaml_load 0 Example.fs_malformed
           (PStr "web") "/roles/web"
           (Example.role_dir "- ping:" "dependencies: [") "dependencies: [").
  - reflexivity.
  - reflexivity.
  - reflexivity.
  - reflexivity.
  - reflexivity.
Defined.

Lemma fingerprint_without_dependencies_witness :
  get_role_fingerprint Example.role_include_load Example.yaml_load 1
    Example.fs (PStr "db") =
  Ok (SHA256.hexdigest
        (tree_hash_input "/roles/db" (Example.role_dir "- ping:" "{}"))).
Proof.
  apply (proj1 (fingerprint_without_dependencies
                  Example.role_include_load Example.yaml_load) 0 Example.fs
           (PStr "db") "/roles/db" (Example.role_dir "- ping:" "{}") "{}" ∅).
  - reflexivity.
  - reflexivity.
  - reflexivity.
  - reflexivity.
  - reflexivity.
  - left. reflexivity.
Defined.

(** The digest of that role, as [hashlib] gives it for the bytes
    [/roles/db/tasks/main.yml::- ping:::/roles/db/meta/main.yml::{}::]. *)
Example fingerprint_db :
  get_role_fingerprint Example.role_include_load Example.yaml_load 1
    Example.fs (PStr "db") =
  Ok "95c8b27802257d2fd3ac1865b14cdf1ef384b8bedf6c01e6b641fe5fb2cb17e8".
Proof. vm_compute. reflexivity. Qed.

(** ** C3: enumeration order *)

Lemma join_all_app (xs ys : list string) :
  join_all (xs ++ ys) = join_all xs +:+ join_all ys.
Proof.
  induction xs as [|x xs IH]; [reflexivity|].
  cbn [app join_all fold_right]. fold (join_all (xs ++ ys)). fold (join_all xs).
  rewrite IH, string_app_assoc. reflexivity.
Qed.

Lemma join_all_cons (x : string) (xs : list string) :
  join_all (x :: xs) = x +:+ join_all xs.
Proof. reflexivity. Qed.

Lemma files_hash_input_app (top : string) (xs ys : list (string * node)) :
  files_hash_input top (xs ++ ys) =
  files_hash_input top xs +:+ files_hash_input top ys.
Proof.
  induction xs as [|[name [data|sub]] xs IH]; [reflexivity| |exact IH].
  cbn [app files_hash_input]. rewrite IH, string_app_assoc. reflexivity.
Qed.

Lemma files_hash_input_files (top : string) (es : list (string * node)) :
  files_hash_input top (files_of es) = files_hash_input top es.
Proof.
  induction es as [|[name [data|sub]] es IH]; [reflexivity| |exact IH].
  cbn [files_of files_hash_input]. rewrite IH. reflexivity.
Qed.

Section FilesFirst.

Variable top : string.

Let below (e : string * node) : string :=
  tree_hash_input (path_join top (fst e)) (snd e).

Let subdirectory (e : string * node) : list (string * node) :=
  match snd e with
  | Dir _ => [(fst e, files_first (snd e))]
  | File _ => []
  end.

Lemma below_files (es : list (string * node)) :
  join_all (map below (files_of es)) = "".
Proof.
  induction es as [|[name [data|sub]] es IH]; [reflexivity|exact IH|exact IH].
Qed.

Lemma files_of_subdirectories (es : list (string * node)) :
  files_hash_input top (flat_map subdirectory es) = "".
Proof.
  induction es as [|[name [data|sub]] es IH]; [reflexivity|exact IH|exact IH].
Qed.

Lemma below_subdirectories (es : list (string * node)) :
  Forall (fun e => forall top',
            tree_hash_input top' (files_first (snd e)) = tree_hash_input top' (snd e)) es ->
  join_all (map below (flat_map subdirectory es)) = join_all (map below es).
Proof.
  induction es as [|[name [data|sub]] es IH]; intros Hall; [reflexivity| |].
  - apply Forall_cons_iff in Hall as [_ Hall].
    cbn [flat_map map]. unfold subdirectory at 1. cbn [snd app].
    rewrite join_all_cons. unfold below at 2. cbn [snd tree_hash_input].
    exact (IH Hall).
  - apply Forall_cons_iff in Hall as [Hsub Hall].
    cbn [flat_map map]. unfold subdirectory at 1. cbn [snd fst app map].
    rewrite !join_all_cons. rewrite (IH Hall). f_equal.
    unfold below. cbn [fst snd]. apply Hsub.
Qed.

End FilesFirst.

(** Listing the files of each directory before its subdirectories leaves the
    hash input unchanged. *)
Lemma tree_hash_input_files_first : forall n top,
  tree_hash_input top (files_first n) = tree_hash_input top n.
Proof.
  induction n as [data|es IH] using node_forall_ind; intros top; [reflexivity|].
  cbn [files_first tree_hash_input].
  rewrite files_hash_input_app, map_app, join_all_app.
  rewrite files_hash_input_files, files_of_subdirectories, below_files.
  rewrite (below_subdirectories top es IH).
  rewrite string_app_nil_r. reflexivity.
Qed.

(** C3 as stated fails: the two subdirectories of a role directory,
    enumerated in the two possible orders, give two digests. *)
Lemma enumeration_order_changes_digest :
  ~ (forall fs1 fs2 st dir_path es1 es2 st1 st2,
        fs_lookup fs1 dir_path = Some (Dir es1) ->
        fs_lookup fs2 dir_path = Some (Dir es2) ->
        Permutation es1 es2 ->
        hash_dir fs1 st dir_path = Ok st1 ->
        hash_dir fs2 st dir_path = Ok st2 ->
        hexdigest st1 = hexdigest st2).
Proof.
  intros H.
  specialize (H Example.fs_twins Example.fs_meta_first initial "/roles/db"
                [ ("tasks", Dir [("main.yml", File "- ping:")]);
                  ("meta", Dir [("main.yml", File "{}")]) ]
                [ ("meta", Dir [("main.yml", File "{}")]);
                  ("tasks", Dir [("main.yml", File "- ping:")]) ]
                (update initial "/roles/db/tasks/main.yml::- ping:::/roles/db/meta/main.yml::{}::")
                (update initial "/roles/db/meta/main.yml::{}::/roles/db/tasks/main.yml::- ping:::")
                eq_refl eq_refl (perm_swap _ _ _)).
  assert (hexdigest (update initial "/roles/db/tasks/main.yml::- ping:::/roles/db/meta/main.yml::{}::")
          = "95c8b27802257d2fd3ac1865b14cdf1ef384b8bedf6c01e6b641fe5fb2cb17e8") as H1
    by (vm_compute; reflexivity).
  assert (hexdigest (update initial "/roles/db/meta/main.yml::{}::/roles/db/tasks/main.yml::- ping:::")
          = "5dc4e331516265a03a26112ce3732e19f7df41a6f3d6487dff7d76c8a4921c5e") as H2
    by (vm_compute; reflexivity).
  rewrite H1, H2 in H.
  assert (hash_dir Example.fs_twins initial "/roles/db" =
          Ok (update initial "/roles/db/tasks/main.yml::- ping:::/roles/db/meta/main.yml::{}::"))
    as Ha by (vm_compute; reflexivity).
  assert (hash_dir Example.fs_meta_first initial "/roles/db" =
          Ok (update initial "/roles/db/meta/main.yml::{}::/roles/db/tasks/main.yml::- ping:::"))
    as Hb by (vm_compute; reflexivity).
  specialize (H Ha Hb). discriminate H.
Qed.

(** C3, amended. The walk sorts nothing: [hash_dir] feeds the files of a
    directory in the order the filesystem enumerates them, then its
    subdirectories in the order it enumerates them. Two runs over
    well-formed trees give the same hash state, hence the same digest,
    whenever the two enumerations list in every directory the same files in
    the same relative order and the same subdirectories in the same relative
    order; how files and subdirectories interleave does not matter. *)
Theorem digest_follows_enumeration_order :
  forall fs1 fs2 st dir_path n1 n2,
    fs_lookup fs1 dir_path = Some n1 -> wf_node n1 = true ->
    fs_lookup fs2 dir_path = Some n2 -> wf_node n2 = true ->
    files_first n1 = files_first n2 ->
    hash_dir fs1 st dir_path = Ok (update st (tree_hash_input dir_path n1))
    /\ hash_dir fs2 st dir_path = hash_dir fs1 st dir_path
    /\ hexdigest <$> hash_dir fs2 st dir_path = hexdigest <$> hash_dir fs1 st dir_path.
Proof.
  intros fs1 fs2 st dir_path n1 n2 H1 Hwf1 H2 Hwf2 Hsame.
  rewrite (hash_dir_spec fs1 st dir_path n1 H1 Hwf1).
  rewrite (hash_dir_spec fs2 st dir_path n2 H2 Hwf2).
  rewrite <- (tree_hash_input_files_first n1), <- (tree_hash_input_files_first n2).
  rewrite Hsame. auto.
Qed.

Lemma digest_follows_enumeration_order_witness :
  hash_dir (Example.fs_interleaved true) initial "/roles/db" =
    Ok (update initial
          (tree_hash_input "/roles/db"
             (Dir [ ("README", File "db"); ("tasks", Dir [("main.yml", File "- ping:")]);
                    ("meta", Dir [("main.yml", File "{}")]) ])))
  /\ hash_dir (Example.fs_interleaved false) initial "/roles/db" =
     hash_dir (Example.fs_interleaved true) initial "/roles/db"
  /\ hexdigest <$> hash_dir (Example.fs_interleaved false) initial "/roles/db" =
     hexdigest <$> hash_dir (Example.fs_interleaved true) initial "/roles/db".
Proof.
  apply (digest_follows_enumeration_order
           (Example.fs_interleaved true) (Example.fs_interleaved false) initial "/roles/db"
           (Dir [ ("README", File "db"); ("tasks", Dir [("main.yml", File "- ping:")]);
                  ("meta", Dir [("main.yml", File "{}")]) ])
           (Dir [ ("tasks", Dir [("main.yml", File "- ping:")]); ("README", File "db");
                  ("meta", Dir [("main.yml", File "{}")]) ])).
  - reflexivity.
  - reflexivity.
  - reflexivity.
  - reflexivity.
  - reflexivity.
Defined.

(** ** C1: the location of a role *)

Section Location.

Variable role_include_load : pyval -> outcome string.
Variable yaml_safe_load : string -> outcome pyval.

Let resolve := resolve_role_to_path role_include_load.
Let dependencies := get_dependencies_for_role yaml_safe_load.
Let loop := for_dependencies role_include_load.
Let hash_role' := hash_role role_include_load yaml_safe_load.
Let fingerprint := get_role_fingerprint role_include_load yaml_safe_load.
Let depends := depends_on role_include_load yaml_safe_load.

Lemma for_dependencies_ext (r1 r2 : state -> string -> outcome state)
    (deps : list (outcome pyval)) :
  (forall name path st,
      In (Ok name) deps -> truthy name = true -> resolve name = Ok path ->
      r1 st path = r2 st path) ->
  forall st, loop r1 st deps = loop r2 st deps.
Proof.
  induction deps as [|next deps IH]; intros Hagree st; [reflexivity|].
  unfold loop in *. cbn [for_dependencies].
  destruct next as [name| |]; [|reflexivity|reflexivity].
  cbn [mbind outcome_bind].
  assert (forall st, for_dependencies role_include_load r1 st deps =
                     for_dependencies role_include_load r2 st deps) as Hrest.
  { apply IH. intros n p s Hin. apply Hagree. right. exact Hin. }
  destruct (truthy name) eqn:Ht; [|apply Hrest].
  destruct (resolve_role_to_path role_include_load name) as [path| |] eqn:Hres;
    [|reflexivity|reflexivity].
  cbn [mbind outcome_bind].
  rewrite (Hagree name path (resolving name st) (or_introl eq_refl) Ht Hres).
  destruct (r2 (resolving name st) path); [apply Hrest|reflexivity|reflexivity].
Qed.

Lemma dependencies_same_tree fs1 fs2 role_path :
  same_tree_at fs1 fs2 role_path ->
  dependencies fs1 role_path = dependencies fs2 role_path.
Proof.
  intros (tree & H1 & H2 & _).
  unfold dependencies, get_dependencies_for_role, open_read.
  rewrite !meta_main_lookup, H1, H2. reflexivity.
Qed.

Lemma hash_dir_same_tree fs1 fs2 st role_path :
  same_tree_at fs1 fs2 role_path ->
  hash_dir fs1 st role_path = hash_dir fs2 st role_path.
Proof.
  intros (tree & H1 & H2 & Hwf).
  rewrite (hash_dir_spec fs1 st role_path tree H1 Hwf).
  rewrite (hash_dir_spec fs2 st role_path tree H2 Hwf). reflexivity.
Qed.

Lemma hash_role_same_tree fs1 fs2 (known : string -> Prop) :
  (forall p, known p -> same_tree_at fs1 fs2 p) ->
  (forall p q, known p -> depends fs1 p q -> known q) ->
  forall depth st role_path,
    known role_path ->
    hash_role' depth fs1 st role_path = hash_role' depth fs2 st role_path.
Proof.
  intros Hsame Hclosed. induction depth as [|depth IH]; intros st role_path Hknown;
    [reflexivity|].
  unfold hash_role'. cbn [hash_role].
  rewrite (hash_dir_same_tree fs1 fs2 st role_path (Hsame _ Hknown)).
  destruct (hash_dir fs2 st role_path) as [st1| |]; [|reflexivity|reflexivity].
  cbn [mbind outcome_bind].
  pose proof (dependencies_same_tree fs1 fs2 role_path (Hsame _ Hknown)) as Hdeps.
  unfold dependencies in Hdeps. rewrite <- Hdeps.
  destruct (get_dependencies_for_role yaml_safe_load fs1 role_path) as [deps| |] eqn:Hd;
    [|reflexivity|reflexivity].
  cbn [mbind outcome_bind]. apply for_dependencies_ext.
  intros name path st' Hin Ht Hres. apply IH.
  apply (Hclosed role_path path Hknown). exists deps, name. auto.
Qed.

(** C1, amended. [hash_dir] feeds the hash the absolute path of every file,
    so the digest depends on where the role directory is. A role name gives
    the same digest in two filesystems when it resolves to a path that holds
    the same well-formed tree, enumerated in the same order, in both, and
    the same is true of every role it depends on, directly or not ([roles]
    lists the paths of these roles). *)
Theorem same_tree_same_location_same_fingerprint :
  forall depth fs1 fs2 role_name (roles : list string),
    (forall role_path, resolve role_name = Ok role_path -> In role_path roles) ->
    (forall p, In p roles -> same_tree_at fs1 fs2 p) ->
    (forall p q, In p roles -> depends fs1 p q -> In q roles) ->
    fingerprint depth fs1 role_name = fingerprint depth fs2 role_name.
Proof.
  intros depth fs1 fs2 role_name roles Hroot Hsame Hclosed.
  unfold fingerprint, get_role_fingerprint. fold resolve.
  destruct (resolve role_name) as [role_path| |] eqn:Hres; [|reflexivity|reflexivity].
  cbn [mbind outcome_bind]. fold hash_role'.
  rewrite (hash_role_same_tree fs1 fs2 (fun p => In p roles) Hsame Hclosed
             depth _ role_path (Hroot _ eq_refl)).
  reflexivity.
Qed.

End Location.

(** C1 as stated fails: two roles with the same tree and no dependencies,
    kept in two directories, have two fingerprints. *)
Lemma same_tree_elsewhere_other_fingerprint :
  ~ (forall (load : pyval -> outcome string) (yaml : string -> outcome pyval)
            depth fs role1 role2 path1 path2 tree deps digest1 digest2,
        resolve_role_to_path load role1 = Ok path1 ->
        resolve_role_to_path load role2 = Ok path2 ->
        fs_lookup fs path1 = Some tree -> fs_lookup fs path2 = Some tree ->
        get_dependencies_for_role yaml fs path1 = Ok deps ->
        get_dependencies_for_role yaml fs path2 = Ok deps ->
        get_role_fingerprint load yaml depth fs role1 = Ok digest1 ->
        get_role_fingerprint load yaml depth fs role2 = Ok digest2 ->
        digest1 = digest2).
Proof.
  intros H.
  specialize (H Example.role_include_load Example.yaml_load 1 Example.fs_twins
                (PStr "db") (PStr "common") "/roles/db" "/roles/common"
                (Example.role_dir "- ping:" "{}") []
                "95c8b27802257d2fd3ac1865b14cdf1ef384b8bedf6c01e6b641fe5fb2cb17e8"
                "fe047b16a5e0d24662ed4d1502c5563a98d203c07132491078b191d0d0c921b9"
                eq_refl eq_refl eq_refl eq_refl eq_refl eq_refl).
  assert (get_role_fingerprint Example.role_include_load Example.yaml_load 1
            Example.fs_twins (PStr "db") =
          Ok "95c8b27802257d2fd3ac1865b14cdf1ef384b8bedf6c01e6b641fe5fb2cb17e8") as Ha
    by (vm_compute; reflexivity).
  assert (get_role_fingerprint Example.role_include_load Example.yaml_load 1
            Example.fs_twins (PStr "common") = Ok "fe047b16a5e0d24662ed4d1502c5563a98d203c07132491078b191d0d0c921b9") as Hb
    by (vm_compute; reflexivity).
  specialize (H Ha Hb). discriminate H.
Qed.


Lemma same_tree_same_location_same_fingerprint_witness :
  get_role_fingerprint Example.role_include_load Example.yaml_load 2
    Example.fs (PStr "web") =
  get_role_fingerprint Example.role_include_load Example.yaml_load 2
    Example.fs_other_host (PStr "web").
Proof.
  apply (same_tree_same_location_same_fingerprint
           Example.role_include_load Example.yaml_load 2
           Example.fs Example.fs_other_host (PStr "web")
           ["/roles/web"; "/roles/db"; "/roles/common"]).
  - intros role_path H. vm_compute in H. injection H as <-. left. reflexivity.
  - intros p [<- | [<- | [<- | []]]]; eexists; repeat split; reflexivity.
  - intros p q Hp (deps & name & Hdeps & Hin & _ & Hres).
    destruct Hp as [<- | [<- | [<- | []]]];
      vm_compute in Hdeps; injection Hdeps as <-;
      repeat (destruct Hin as [Hin | Hin];
              [injection Hin as <-; vm_compute in Hres; injection Hres as <-;
               simpl; tauto|]);
      destruct Hin.
Defined.

(** ** C4: termination *)

Lemma for_each_terminates {A S} (body : S -> A -> outcome S) (xs : list A) :
  (forall s x, terminates (body s x)) -> forall acc, terminates (for_each body acc xs).
Proof.
  intros Hbody. induction xs as [|x xs IH]; intros acc; [discriminate|].
  cbn [for_each]. pose proof (Hbody acc x) as Hx.
  destruct (body acc x); [apply IH|discriminate|contradiction].
Qed.

Lemma hash_file_terminates fs st path : terminates (hash_file fs st path).
Proof.
  unfold hash_file, open_read.
  destruct (fs_lookup fs path) as [[data|es]|]; discriminate.
Qed.

Lemma hash_dir_terminates fs st dir_path : terminates (hash_dir fs st dir_path).
Proof.
  rewrite hash_dir_unfold. apply for_each_terminates.
  intros s item. apply for_each_terminates. intros s' file_path.
  apply hash_file_terminates.
Qed.

Section Termination.

Variable role_include_load : pyval -> outcome string.
Variable yaml_safe_load : string -> outcome pyval.

Let resolve := resolve_role_to_path role_include_load.
Let dependencies := get_dependencies_for_role yaml_safe_load.
Let loop := for_dependencies role_include_load.
Let hash_role' := hash_role role_include_load yaml_safe_load.
Let fingerprint := get_role_fingerprint role_include_load yaml_safe_load.
Let depends := depends_on role_include_load yaml_safe_load.

(** The external collaborators return or raise. *)
Hypothesis load_terminates : forall role_name, terminates (role_include_load role_name).
Hypothesis yaml_terminates : forall document, terminates (yaml_safe_load document).

Lemma dependencies_terminate fs role_path :
  terminates (dependencies fs role_path) /\
  forall deps, dependencies fs role_path = Ok deps ->
               Forall (fun next => terminates next) deps.
Proof.
  unfold dependencies, get_dependencies_for_role, open_read.
  destruct (fs_lookup fs _) as [[document|es]|];
    try (split; [discriminate|intros deps H; discriminate H]).
  cbn [mbind outcome_bind]. pose proof (yaml_terminates document) as Hy.
  destruct (yaml_safe_load document) as [meta_main| |];
    [|split; [discriminate|intros deps H; discriminate H]|contradiction].
  cbn [mbind outcome_bind].
  destruct (py_get meta_main "dependencies" (PList [])) as [ds| |] eqn:Hget;
    [|split; [discriminate|intros deps H; discriminate H]|].
  2:{ destruct meta_main; discriminate Hget. }
  cbn [mbind outcome_bind].
  destruct (py_iter ds) as [entries| |] eqn:Hiter;
    [|split; [discriminate|intros deps H; discriminate H]|].
  2:{ destruct ds; discriminate Hiter. }
  cbn [mbind outcome_bind]. split; [discriminate|].
  intros deps H. injection H as <-. apply Forall_forall.
  intros next Hin. apply list_elem_of_In, in_map_iff in Hin as (e & <- & _).
  destruct e; discriminate.
Qed.

Lemma for_dependencies_terminates recurse (deps : list (outcome pyval)) :
  Forall (fun next => terminates next) deps ->
  (forall name path st,
      In (Ok name) deps -> truthy name = true -> resolve name = Ok path ->
      terminates (recurse st path)) ->
  forall st, terminates (loop recurse st deps).
Proof.
  induction deps as [|next deps IH]; intros Hall Hrec st; [discriminate|].
  apply Forall_cons_iff in Hall as [Hnext Hall].
  assert (forall st, terminates (loop recurse st deps)) as Hrest.
  { apply IH; [exact Hall|]. intros n p s Hin. apply Hrec. right. exact Hin. }
  unfold loop in *. cbn [for_dependencies].
  destruct next as [name| |]; [|discriminate|contradiction].
  cbn [mbind outcome_bind]. destruct (truthy name) eqn:Ht; [|apply Hrest].
  pose proof (load_terminates name) as Hl.
  destruct (resolve_role_to_path role_include_load name) as [path| |] eqn:Hres;
    [|discriminate|contradiction].
  cbn [mbind outcome_bind].
  pose proof (Hrec name path (resolving name st) (or_introl eq_refl) Ht Hres) as Hr.
  destruct (recurse (resolving name st) path); [apply Hrest|discriminate|contradiction].
Qed.

Section Acyclic.

Variable fs : node.
Variable reach : string -> Prop.
Variable roles : list string.
Hypothesis reach_closed : forall p q, reach p -> depends fs p q -> reach q.
Hypothesis reach_listed : forall p, reach p -> In p roles.
Hypothesis reach_acyclic : forall p, reach p -> ~ tc (depends fs) p p.

(** With [visited] the roles on the current chain of recursive calls, the
    depth left suffices as long as it covers the roles not yet on it. *)
Lemma hash_role_bounded : forall depth visited role_path st,
  reach role_path ->
  NoDup visited -> incl visited roles ->
  (forall v, In v visited -> tc (depends fs) v role_path) ->
  length roles <= depth + length visited ->
  terminates (hash_role' depth fs st role_path).
Proof.
  induction depth as [|depth IH]; intros visited role_path st Hin Hnd Hincl Hanc Hlen.
  - exfalso.
    assert (~ In role_path visited) as Hfresh.
    { intros Hv. exact (reach_acyclic _ Hin (Hanc _ Hv)). }
    assert (length (role_path :: visited) <= length roles) as Hle.
    { apply NoDup_incl_length.
      - apply List.NoDup_cons; [exact Hfresh | apply NoDup_ListNoDup; exact Hnd].
      - intros x [<-|Hx]; [exact (reach_listed _ Hin) | apply Hincl; exact Hx]. }
    simpl in Hle, Hlen. lia.
  - assert (~ In role_path visited) as Hfresh.
    { intros Hv. exact (reach_acyclic _ Hin (Hanc _ Hv)). }
    unfold hash_role'. cbn [hash_role].
    pose proof (hash_dir_terminates fs st role_path) as Hd.
    destruct (hash_dir fs st role_path) as [st1| |]; [|discriminate|contradiction].
    cbn [mbind outcome_bind].
    destruct (dependencies_terminate fs role_path) as [Hdt Hall].
    unfold dependencies in Hdt, Hall.
    destruct (get_dependencies_for_role yaml_safe_load fs role_path) as [deps| |] eqn:Hdeps;
      [|discriminate|contradiction].
    cbn [mbind outcome_bind].
    apply for_dependencies_terminates; [exact (Hall deps eq_refl)|].
    intros name path st' Hname Ht Hres.
    assert (depends fs role_path path) as Hedge by (exists deps, name; auto).
    apply (IH (role_path :: visited)).
    + exact (reach_closed _ _ Hin Hedge).
    + apply NoDup_cons. split; [|exact Hnd].
      intros Hv. apply Hfresh, list_elem_of_In. exact Hv.
    + intros x [<-|Hx]; [exact (reach_listed _ Hin) | apply Hincl; exact Hx].
    + intros v [<-|Hv].
      * apply tc_once. exact Hedge.
      * eapply tc_r; [apply Hanc; exact Hv | exact Hedge].
    + simpl. lia.
Qed.

End Acyclic.

Lemma entry_in (name : string) (es : list (string * node)) (n : node) :
  entry name es = Some n -> In (name, n) es.
Proof.
  induction es as [|[c x] es IH]; [discriminate|]. simpl.
  destruct (String.eqb_spec c name) as [->|Hne].
  - intros H. injection H as ->. left. reflexivity.
  - intros H. right. exact (IH H).
Qed.

Lemma descend_documents (cs : list string) : forall n data,
  descend n cs = Some (File data) -> In data (documents n).
Proof.
  induction cs as [|c cs IH]; intros n data H.
  - simpl in H. injection H as ->. left. reflexivity.
  - destruct n as [d|es]; [discriminate H|]. simpl in H.
    destruct (entry c es) as [n'|] eqn:He; [|discriminate H].
    cbn [documents]. apply in_flat_map. exists (c, n'). split.
    + exact (entry_in _ _ _ He).
    + exact (IH n' data H).
Qed.

(** Whatever a role depends on is declared in a document of the filesystem. *)
Lemma depends_declared fs p q :
  depends fs p q -> In q (declared role_include_load yaml_safe_load fs).
Proof.
  intros (deps & name & Hdeps & Hin & _ & Hres).
  unfold get_dependencies_for_role, open_read in Hdeps.
  destruct (fs_lookup fs _) as [[document|es]|] eqn:Hdoc; try discriminate Hdeps.
  cbn [mbind outcome_bind] in Hdeps.
  unfold declared. apply in_flat_map. exists document. split.
  { exact (descend_documents _ _ _ Hdoc). }
  unfold declared_in.
  destruct (yaml_safe_load document) as [meta_main| |]; try discriminate Hdeps.
  cbn [mbind outcome_bind] in Hdeps |- *.
  destruct (py_get meta_main "dependencies" (PList [])) as [ds| |];
    try discriminate Hdeps.
  cbn [mbind outcome_bind] in Hdeps |- *.
  destruct (py_iter ds) as [entries| |]; try discriminate Hdeps.
  cbn [mbind outcome_bind] in Hdeps. injection Hdeps as <-.
  apply in_map_iff in Hin as (entry & Hentry & Hin).
  apply in_flat_map. exists entry. split; [exact Hin|].
  rewrite Hentry. cbn [mbind outcome_bind]. rewrite Hres. left. reflexivity.
Qed.

(** A role that completes has had each of its dependencies complete, with
    less depth. *)
Lemma hash_role_descends fs depth st role_path st' q :
  hash_role' depth fs st role_path = Ok st' ->
  depends fs role_path q ->
  exists depth' st1 st2, depth' < depth /\ hash_role' depth' fs st1 q = Ok st2.
Proof.
  intros H (deps & name & Hdeps & Hin & Ht & Hres).
  destruct depth as [|depth]; [discriminate H|].
  unfold hash_role' in H. cbn [hash_role] in H.
  apply bind_Ok in H as (st1 & _ & H). rewrite Hdeps in H. cbn [mbind outcome_bind] in H.
  apply in_split in Hin as (pre & post & ->).
  destruct (for_dependencies_split role_include_load _ _ _ _ _ _ Ht H)
    as (st2 & path & st3 & _ & Hres' & Hrec & _).
  assert (path = q) as -> by congruence.
  exists depth, (resolving name st2), st3. split; [lia | exact Hrec].
Qed.

Lemma hash_role_descends_tc fs p q :
  tc (depends fs) p q ->
  forall depth st st', hash_role' depth fs st p = Ok st' ->
  exists depth' st1 st2, depth' < depth /\ hash_role' depth' fs st1 q = Ok st2.
Proof.
  induction 1 as [p q Hedge | p r q Hedge Htc IH]; intros depth st st' H.
  - exact (hash_role_descends fs depth st p st' q H Hedge).
  - destruct (hash_role_descends fs depth st p st' r H Hedge) as (d1 & s1 & s2 & Hlt & H1).
    destruct (IH d1 s1 s2 H1) as (d2 & s3 & s4 & Hlt2 & H2).
    exists d2, s3, s4. split; [lia | exact H2].
Qed.

Lemma hash_role_cycle fs role_path :
  tc (depends fs) role_path role_path ->
  forall depth st, ~ returns (hash_role' depth fs st role_path).
Proof.
  intros Hcycle depth. induction depth as [depth IH] using lt_wf_ind.
  intros st [st' H].
  destruct (hash_role_descends_tc fs _ _ Hcycle depth st st' H) as (d & s1 & s2 & Hlt & Hd).
  apply (IH d Hlt s1). exists s2. exact Hd.
Qed.

End Termination.

Section Cycles.

Variable role_include_load : pyval -> outcome string.
Variable yaml_safe_load : string -> outcome pyval.

Let resolve := resolve_role_to_path role_include_load.
Let fingerprint := get_role_fingerprint role_include_load yaml_safe_load.
Let depends := depends_on role_include_load yaml_safe_load.

(** C4. (1) When no role reachable from a role through dependency
    declarations is reachable from itself, [get_role_fingerprint]
    terminates: the recursion never goes deeper than the number of roles
    declared in the filesystem, and with that depth the call returns a
    digest or raises (the resolver and the loader are taken to return or
    raise). (2) When the role is reachable from itself, nothing guards the
    recursion: at no depth does [get_role_fingerprint] return a digest. *)
Theorem fingerprint_terminates_unless_cyclic :
  (forall fs role_name,
      (forall name, terminates (role_include_load name)) ->
      (forall document, terminates (yaml_safe_load document)) ->
      (forall role_path p,
          resolve role_name = Ok role_path -> rtc (depends fs) role_path p ->
          ~ tc (depends fs) p p) ->
      forall depth,
        length (declared role_include_load yaml_safe_load fs) < depth ->
        terminates (fingerprint depth fs role_name) /\
        (returns (fingerprint depth fs role_name) \/
         raises (fingerprint depth fs role_name)))
  /\ (forall fs role_name role_path,
        resolve role_name = Ok role_path ->
        tc (depends fs) role_path role_path ->
        forall depth, ~ returns (fingerprint depth fs role_name)).
Proof.
  split.
  - intros fs role_name Hload Hyaml Hacyclic depth Hdepth.
    assert (terminates (fingerprint depth fs role_name)) as Hterm.
    { unfold fingerprint, get_role_fingerprint.
      pose proof (Hload role_name) as Hl. unfold resolve, resolve_role_to_path in *.
      destruct (role_include_load role_name) as [role_path| |] eqn:Hres;
        [|discriminate|contradiction].
      cbn [mbind outcome_bind].
      pose proof (hash_role_bounded role_include_load yaml_safe_load Hload Hyaml
                    fs (rtc (depends fs) role_path)
                    (role_path :: declared role_include_load yaml_safe_load fs)) as Hb.
      specialize (Hb (fun p q Hp Hedge => rtc_r _ _ _ Hp Hedge)).
      assert (forall p, rtc (depends fs) role_path p ->
                        In p (role_path :: declared role_include_load yaml_safe_load fs))
        as Hlisted.
      { intros p Hp. apply rtc_inv_r in Hp as [<- | (r & _ & Hedge)].
        - left. reflexivity.
        - right. exact (depends_declared role_include_load yaml_safe_load fs r p Hedge). }
      specialize (Hb Hlisted (fun p Hp => Hacyclic role_path p eq_refl Hp)).
      specialize (Hb depth [] role_path (resolving role_name initial)
                     (rtc_refl _ _) (NoDup_nil_2) (incl_nil_l _)).
      destruct (hash_role role_include_load yaml_safe_load depth fs
                  (resolving role_name initial) role_path);
        [discriminate|discriminate|].
      exfalso. apply Hb; [intros v []|simpl; lia|reflexivity]. }
    split; [exact Hterm|].
    destruct (fingerprint depth fs role_name) as [digest|e|];
      [left; eexists; reflexivity|right; eexists; reflexivity|contradiction].
  - intros fs role_name role_path Hres Hcycle depth [digest H].
    unfold fingerprint, get_role_fingerprint in H. fold resolve in H.
    rewrite Hres in H. cbn [mbind outcome_bind] in H.
    apply bind_Ok in H as (st & Hst & _).
    apply (hash_role_cycle role_include_load yaml_safe_load fs role_path Hcycle
             depth (resolving role_name initial)).
    exists st. exact Hst.
Qed.

End Cycles.

(** The role of [Example.fs_loop] lists itself: every depth is exceeded. *)
Example self_dependency_diverges :
  forall depth,
    get_role_fingerprint Example.role_include_load Example.yaml_load depth
      Example.fs_loop (PStr "loop") = Diverge.
Proof.
  assert (forall depth st,
             hash_role Example.role_include_load Example.yaml_load depth
               Example.fs_loop st "/roles/loop" = Diverge) as H.
  { induction depth as [|depth IH]; intros st; [reflexivity|].
    cbn [hash_role].
    rewrite (hash_dir_spec Example.fs_loop st "/roles/loop"
               (Example.role_dir "- ping:" "dependencies: [{role: loop}]")
               eq_refl eq_refl).
    cbn [mbind outcome_bind].
    assert (get_dependencies_for_role Example.yaml_load Example.fs_loop "/roles/loop"
            = Ok [Ok (PStr "loop")]) as -> by (vm_compute; reflexivity).
    cbn [mbind outcome_bind for_dependencies].
    change (truthy (PStr "loop")) with true. cbv iota.
    change (resolve_role_to_path Example.role_include_load (PStr "loop"))
      with (@Ok string "/roles/loop").
    cbn [mbind outcome_bind]. rewrite IH. reflexivity. }
  intros depth. unfold get_role_fingerprint.
  change (resolve_role_to_path Example.role_include_load (PStr "loop"))
    with (@Ok string "/roles/loop").
  cbn [mbind outcome_bind]. rewrite H. reflexivity.
Qed.

Lemma example_load_terminates name : terminates (Example.role_include_load name).
Proof.
  unfold Example.role_include_load. destruct name; try discriminate.
  destruct (Example.find _ s); discriminate.
Qed.

Lemma example_yaml_terminates document : terminates (Example.yaml_load document).
Proof. unfold Example.yaml_load. destruct (Example.find _ document); discriminate. Qed.

Lemma example_leaf (q : string) :
  ~ depends_on Example.role_include_load Example.yaml_load Example.fs "/roles/db" q
  /\ ~ depends_on Example.role_include_load Example.yaml_load Example.fs "/roles/common" q.
Proof.
  split; intros (deps & name & Hdeps & Hin & _);
    vm_compute in Hdeps; injection Hdeps as <-; destruct Hin.
Qed.

Lemma example_edges (q : string) :
  depends_on Example.role_include_load Example.yaml_load Example.fs "/roles/web" q ->
  q = "/roles/db" \/ q = "/roles/common".
Proof.
  intros (deps & name & Hdeps & Hin & _ & Hres).
  vm_compute in Hdeps. injection Hdeps as <-.
  destruct Hin as [Hin | [Hin | []]]; injection Hin as <-;
    vm_compute in Hres; injection Hres as <-; auto.
Qed.

Lemma example_acyclic (p : string) :
  rtc (depends_on Example.role_include_load Example.yaml_load Example.fs) "/roles/web" p ->
  ~ tc (depends_on Example.role_include_load Example.yaml_load Example.fs) p p.
Proof.
  assert (forall q r,
             q = "/roles/db" \/ q = "/roles/common" ->
             ~ tc (depends_on Example.role_include_load Example.yaml_load Example.fs) q r)
    as Hleaf.
  { intros q r Hq Htc.
    assert (exists x, depends_on Example.role_include_load Example.yaml_load
                        Example.fs q x) as [x Hx]
      by (destruct Htc; eauto).
    destruct Hq as [-> | ->]; [exact (proj1 (example_leaf x) Hx)
                              | exact (proj2 (example_leaf x) Hx)]. }
  intros Hreach Htc.
  assert (p = "/roles/web" \/ p = "/roles/db" \/ p = "/roles/common") as Hp.
  { clear Htc. revert p Hreach.
    apply (rtc_ind_r (R := depends_on Example.role_include_load Example.yaml_load Example.fs)
             (fun p => p = "/roles/web" \/ p = "/roles/db" \/ p = "/roles/common"));
      [auto|].
    intros r q _ Hedge [-> | Hr].
    - right. exact (example_edges _ Hedge).
    - exfalso. exact (Hleaf r q Hr (tc_once _ _ _ Hedge)). }
  destruct Hp as [-> | Hp]; [|exact (Hleaf p p Hp Htc)].
  inversion Htc as [? ? Hedge | ? r ? Hedge Hrest]; subst.
  - apply example_edges in Hedge as [H | H]; discriminate H.
  - apply example_edges in Hedge. exact (Hleaf r _ Hedge Hrest).
Qed.

Lemma fingerprint_terminates_unless_cyclic_witness :
  (terminates (get_role_fingerprint Example.role_include_load Example.yaml_load 5
                 Example.fs (PStr "web")) /\
   (returns (get_role_fingerprint Example.role_include_load Example.yaml_load 5
               Example.fs (PStr "web")) \/
    raises (get_role_fingerprint Example.role_include_load Example.yaml_load 5
              Example.fs (PStr "web"))))
  /\ ~ returns (get_role_fingerprint Example.role_include_load Example.yaml_load 7
                  Example.fs_loop (PStr "loop")).
Proof.
  destruct (fingerprint_terminates_unless_cyclic
              Example.role_include_load Example.yaml_load) as [Hacyclic Hcyclic].
  split.
  - apply (Hacyclic Example.fs (PStr "web")).
    + exact example_load_terminates.
    + exact example_yaml_terminates.
    + intros role_path p H. vm_compute in H. injection H as <-. exact (example_acyclic p).
    + vm_compute. lia.
  - apply (Hcyclic Example.fs_loop (PStr "loop") "/roles/loop").
    + reflexivity.
    + apply tc_once. exists [Ok (PStr "loop")], (PStr "loop").
      repeat split; try reflexivity. left. reflexivity.
Defined.

(** ** C2: what the hash input is sensitive to *)

Lemma string_cancel (a x y b : string) :
  a +:+ x +:+ b = a +:+ y +:+ b -> x = y.
Proof. intros H. apply string_app_inv_head in H. exact (string_app_inv_tail _ _ _ H). Qed.

Lemma string_app_inj_length (s1 t1 s2 t2 : string) :
  s1 +:+ t1 = s2 +:+ t2 -> String.length s1 = String.length s2 ->
  s1 = s2 /\ t1 = t2.
Proof.
  revert s2. induction s1 as [|a s1 IH]; intros [|b s2] H Hlen; try discriminate Hlen.
  - split; [reflexivity | exact H].
  - rewrite !string_app_cons in H. injection H as -> H.
    simpl in Hlen. destruct (IH s2 H) as [-> ->]; [lia|]. split; reflexivity.
Qed.

Lemma string_drop_shorter (n : nat) (a : ascii) (s : string) :
  String.length (string_drop (S n) (String a s)) < String.length (String a s).
Proof. simpl. pose proof (string_drop_length n s). lia. Qed.

Section Encoding.

(** The bytes [hash_file] feeds for the contents of a file. *)
Let enc (turns : nat) (data : string) : string :=
  join_all (map (fun block => block +:+ separator) (blocks_of turns data)).

Lemma enc_empty turns : enc turns "" = "".
Proof. unfold enc. rewrite blocks_of_empty. reflexivity. Qed.

Lemma enc_cons turns a data :
  enc (S turns) (String a data) =
  string_take blocksize (String a data) +:+ separator +:+
  enc turns (string_drop blocksize (String a data)).
Proof.
  unfold enc. cbn [blocks_of map]. rewrite join_all_cons, string_app_assoc. reflexivity.
Qed.

Lemma enc_nonempty turns a data : enc (S turns) (String a data) <> "".
Proof.
  rewrite enc_cons. intros H. apply (f_equal String.length) in H.
  rewrite !string_app_length in H. simpl in H. lia.
Qed.

Lemma enc_inj : forall t1 t2 d1 d2,
  String.length d1 < t1 -> String.length d2 < t2 ->
  enc t1 d1 = enc t2 d2 -> d1 = d2.
Proof.
  destruct blocksize_succ as [n Hn].
  induction t1 as [|t1 IH]; intros t2 d1 d2 H1 H2 Heq; [lia|].
  destruct t2 as [|t2]; [lia|].
  destruct d1 as [|a1 d1], d2 as [|a2 d2].
  - reflexivity.
  - rewrite enc_empty in Heq. symmetry in Heq. destruct (enc_nonempty _ _ _ Heq).
  - rewrite enc_empty in Heq. destruct (enc_nonempty _ _ _ Heq).
  - rewrite !enc_cons in Heq.
    set (b1 := string_take blocksize (String a1 d1)) in *.
    set (b2 := string_take blocksize (String a2 d2)) in *.
    set (r1 := string_drop blocksize (String a1 d1)) in *.
    set (r2 := string_drop blocksize (String a2 d2)) in *.
    assert (String.length r1 < t1) as Hr1.
    { unfold r1. rewrite Hn. pose proof (string_drop_shorter n a1 d1). lia. }
    assert (String.length r2 < t2) as Hr2.
    { unfold r2. rewrite Hn. pose proof (string_drop_shorter n a2 d2). lia. }
    assert (String.length b1 = String.length b2) as Hlen.
    { pose proof (string_take_length blocksize (String a1 d1)) as Hb1.
      pose proof (string_take_length blocksize (String a2 d2)) as Hb2.
      fold b1 in Hb1. fold b2 in Hb2.
      pose proof (f_equal String.length Heq) as Hl.
      rewrite !string_app_length in Hl.
      destruct (Nat.lt_trichotomy (String.length b1) (String.length b2))
        as [Hlt | [Heq' | Hgt]]; [|exact Heq'|].
      - assert (r1 = "") as Hr.
        { destruct (String.eqb_spec r1 ""); [assumption|].
          pose proof (string_take_full blocksize (String a1 d1)) as Hfull.
          fold r1 b1 in Hfull. specialize (Hfull n0). lia. }
        rewrite Hr, enc_empty in Hl. simpl in Hl. lia.
      - assert (r2 = "") as Hr.
        { destruct (String.eqb_spec r2 ""); [assumption|].
          pose proof (string_take_full blocksize (String a2 d2)) as Hfull.
          fold r2 b2 in Hfull. specialize (Hfull n0). lia. }
        rewrite Hr, enc_empty in Hl. simpl in Hl. lia. }
    destruct (string_app_inj_length _ _ _ _ Heq Hlen) as [Hb Hrest].
    apply string_app_inv_head in Hrest.
    pose proof (IH t2 r1 r2 Hr1 Hr2 Hrest) as Hr.
    rewrite <- (string_take_drop blocksize (String a1 d1)).
    rewrite <- (string_take_drop blocksize (String a2 d2)).
    fold b1 b2 r1 r2. rewrite Hb, Hr. reflexivity.
Qed.

End Encoding.

(** The hash input of a file determines its bytes. *)
Lemma file_hash_input_inj (path data data' : string) :
  file_hash_input path data = file_hash_input path data' -> data = data'.
Proof.
  unfold file_hash_input. intros H.
  apply string_app_inv_head, string_app_inv_head in H.
  unfold blocks in H. apply (enc_inj _ _ _ _ (Nat.lt_succ_diag_r _) (Nat.lt_succ_diag_r _) H).
Qed.

Lemma file_hash_input_length (path data : string) :
  2 <= String.length (file_hash_input path data).
Proof.
  unfold file_hash_input. rewrite !string_app_length. simpl. lia.
Qed.

Lemma tree_hash_input_split (top : string) (pre post : list (string * node))
    (e : string * node) :
  tree_hash_input top (Dir (pre ++ e :: post)) =
  (files_hash_input top pre +:+ files_hash_input top [e] +:+ files_hash_input top post)
  +:+ (join_all (map (fun e => tree_hash_input (path_join top (fst e)) (snd e)) pre)
       +:+ tree_hash_input (path_join top (fst e)) (snd e)
       +:+ join_all (map (fun e => tree_hash_input (path_join top (fst e)) (snd e)) post)).
Proof.
  cbn [tree_hash_input].
  rewrite (files_hash_input_app top pre (e :: post)).
  change (files_hash_input top (e :: post)) with (files_hash_input top ([e] ++ post)).
  rewrite (files_hash_input_app top [e] post).
  rewrite map_app, join_all_app. cbn [map]. rewrite join_all_cons. reflexivity.
Qed.

Lemma tree_hash_input_app (top : string) (pre post : list (string * node)) :
  tree_hash_input top (Dir (pre ++ post)) =
  (files_hash_input top pre +:+ files_hash_input top post)
  +:+ (join_all (map (fun e => tree_hash_input (path_join top (fst e)) (snd e)) pre)
       +:+ join_all (map (fun e => tree_hash_input (path_join top (fst e)) (snd e)) post)).
Proof.
  cbn [tree_hash_input].
  rewrite files_hash_input_app, map_app, join_all_app. reflexivity.
Qed.

Lemma edit_directories (n n' : node) :
  edit n n' -> (exists es, n = Dir es) /\ (exists es', n' = Dir es').
Proof. intros H. destruct H; eauto. Qed.

Lemma file_added_longer (top : string) (pre post : list (string * node))
    (name data : string) :
  tree_hash_input top (Dir (pre ++ post)) <>
  tree_hash_input top (Dir (pre ++ (name, File data) :: post)).
Proof.
  rewrite tree_hash_input_split, tree_hash_input_app. intros H.
  apply (f_equal String.length) in H.
  cbn [files_hash_input fst snd tree_hash_input] in H.
  rewrite !string_app_length in H.
  pose proof (file_hash_input_length (path_join top name) data). simpl in H. lia.
Qed.

(** One change to a directory tree changes its hash input. *)
Lemma tree_hash_input_edit (n n' : node) :
  edit n n' -> forall top, tree_hash_input top n <> tree_hash_input top n'.
Proof.
  induction 1 as [pre name data data' post Hne | pre name data post
                 | pre name data post | pre name sub sub' post Hedit IH]; intros top.
  - rewrite !tree_hash_input_split. intros H.
    apply string_app_inv_tail, string_cancel in H.
    cbn [files_hash_input] in H. rewrite !string_app_nil_r in H.
    apply file_hash_input_inj in H. contradiction.
  - apply file_added_longer.
  - intros H. symmetry in H. exact (file_added_longer _ _ _ _ _ H).
  - destruct (edit_directories _ _ Hedit) as [[es ->] [es' ->]].
    rewrite !tree_hash_input_split. intros H.
    cbn [files_hash_input fst snd] in H.
    apply string_app_inv_head, string_cancel in H.
    exact (IH _ H).
Qed.

Lemma visits_hash_input_app (xs ys : list visit) :
  visits_hash_input (xs ++ ys) = visits_hash_input xs +:+ visits_hash_input ys.
Proof. unfold visits_hash_input. rewrite map_app. apply join_all_app. Qed.

Lemma visits_hash_input_edit (pre post : list visit) (q : string) (tree tree' : node) :
  edit tree tree' ->
  visits_hash_input (pre ++ (q, tree) :: post) <>
  visits_hash_input (pre ++ (q, tree') :: post).
Proof.
  intros Hedit H.
  rewrite !visits_hash_input_app in H.
  change ((q, tree) :: post) with ([(q, tree)] ++ post) in H.
  change ((q, tree') :: post) with ([(q, tree')] ++ post) in H.
  rewrite !visits_hash_input_app in H.
  apply string_cancel in H. unfold visits_hash_input in H. cbn in H.
  rewrite !string_app_nil_r in H.
  exact (tree_hash_input_edit _ _ Hedit q H).
Qed.

Section VisitsOfHashRole.

Variable role_include_load : pyval -> outcome string.
Variable yaml_safe_load : string -> outcome pyval.

Let resolve := resolve_role_to_path role_include_load.
Let loop := for_dependencies role_include_load.
Let hash_role' := hash_role role_include_load yaml_safe_load.
Let fingerprint := get_role_fingerprint role_include_load yaml_safe_load.
Let visits := role_visits role_include_load yaml_safe_load.

Let wf_visits (vs : list visit) : Prop := Forall (fun v => wf_node (snd v) = true) vs.

Let hashes (run : state -> outcome state) (vs : list visit) : Prop :=
  forall st, exists st',
    run st = Ok st' /\ hash_obj st' = hash_obj st +:+ visits_hash_input vs.

Lemma for_dependencies_visits
    (recurse_h : state -> string -> outcome state)
    (recurse_v : string -> outcome (list visit)) :
  (forall path vs, recurse_v path = Ok vs -> wf_visits vs ->
                   hashes (fun st => recurse_h st path) vs) ->
  forall deps vs,
    visits_of role_include_load recurse_v deps = Ok vs -> wf_visits vs ->
    hashes (fun st => loop recurse_h st deps) vs.
Proof.
  intros Hrec. induction deps as [|next deps IH]; intros vs Hvs Hwf st.
  - injection Hvs as <-. exists st. split; [reflexivity|].
    unfold visits_hash_input. simpl. rewrite string_app_nil_r. reflexivity.
  - cbn [visits_of] in Hvs. apply bind_Ok in Hvs as (dependency & -> & Hvs).
    unfold loop. cbn [for_dependencies mbind outcome_bind].
    destruct (truthy dependency); [|exact (IH vs Hvs Hwf st)].
    apply bind_Ok in Hvs as (path & Hres & Hvs). rewrite Hres.
    apply bind_Ok in Hvs as (here & Hhere & Hvs).
    apply bind_Ok in Hvs as (more & Hmore & Hvs). injection Hvs as <-.
    apply Forall_app in Hwf as [Hwf1 Hwf2].
    cbn [mbind outcome_bind].
    destruct (Hrec path here Hhere Hwf1 (resolving dependency st)) as (st1 & -> & H1).
    cbn [mbind outcome_bind].
    destruct (IH more Hmore Hwf2 st1) as (st2 & H2 & H3).
    exists st2. split; [exact H2|].
    rewrite H3, H1, visits_hash_input_app, string_app_assoc. reflexivity.
Qed.

(** [hash_role] feeds the hash the inputs of the trees of the roles it
    visits, one after the other in the order of the visit. *)
Lemma hash_role_visits fs : forall depth role_path vs,
  visits depth fs role_path = Ok vs -> wf_visits vs ->
  hashes (fun st => hash_role' depth fs st role_path) vs.
Proof.
  induction depth as [|depth IH]; intros role_path vs Hvs Hwf st; [discriminate Hvs|].
  unfold visits in Hvs. cbn [role_visits] in Hvs.
  destruct (fs_lookup fs role_path) as [tree|] eqn:Htree; [|discriminate Hvs].
  apply bind_Ok in Hvs as (deps & Hdeps & Hvs).
  apply bind_Ok in Hvs as (below & Hbelow & Hvs). injection Hvs as <-.
  apply Forall_cons_iff in Hwf as [Hwf_tree Hwf_below]. simpl in Hwf_tree.
  unfold hash_role'. cbn [hash_role].
  rewrite (hash_dir_spec fs st role_path tree Htree Hwf_tree), Hdeps.
  cbn [mbind outcome_bind].
  destruct (for_dependencies_visits (hash_role' depth fs) (visits depth fs) (IH)
              deps below Hbelow Hwf_below (update st (tree_hash_input role_path tree)))
    as (st' & Hst' & Hobj).
  exists st'. split; [exact Hst'|].
  rewrite Hobj. unfold visits_hash_input. cbn [map fst snd update hash_obj].
  rewrite join_all_cons, string_app_assoc. reflexivity.
Qed.

(** C2, amended. The digest depends on the order of the declared dependency
    list. (1) [get_role_fingerprint] is the SHA-256 of the hash inputs of
    the trees of the roles visited, concatenated in the order of the visit:
    the role, then its dependencies in declared order, each followed by its
    own. (2) When a file's bytes change, or a file is added or removed, in the
    tree of one visited role (the role or one of its dependencies) while the
    visit is otherwise the same, the bytes fed to SHA-256 change. *)
Theorem fingerprint_hashes_visits_in_declared_order :
  (forall depth fs role_name role_path vs,
      resolve role_name = Ok role_path ->
      visits depth fs role_path = Ok vs -> wf_visits vs ->
      fingerprint depth fs role_name = Ok (SHA256.hexdigest (visits_hash_input vs)))
  /\ (forall depth fs fs' role_name role_path pre q tree tree' post,
        resolve role_name = Ok role_path ->
        visits depth fs role_path = Ok (pre ++ (q, tree) :: post) ->
        visits depth fs' role_path = Ok (pre ++ (q, tree') :: post) ->
        wf_visits (pre ++ (q, tree) :: post) ->
        wf_visits (pre ++ (q, tree') :: post) ->
        edit tree tree' ->
        fingerprint depth fs role_name =
          Ok (SHA256.hexdigest (visits_hash_input (pre ++ (q, tree) :: post))) /\
        fingerprint depth fs' role_name =
          Ok (SHA256.hexdigest (visits_hash_input (pre ++ (q, tree') :: post))) /\
        visits_hash_input (pre ++ (q, tree) :: post) <>
        visits_hash_input (pre ++ (q, tree') :: post)).
Proof.
  assert (forall depth fs role_name role_path vs,
             resolve role_name = Ok role_path ->
             visits depth fs role_path = Ok vs -> wf_visits vs ->
             fingerprint depth fs role_name =
             Ok (SHA256.hexdigest (visits_hash_input vs))) as Hone.
  { intros depth fs role_name role_path vs Hres Hvs Hwf.
    unfold fingerprint, get_role_fingerprint. fold resolve. rewrite Hres.
    cbn [mbind outcome_bind].
    destruct (hash_role_visits fs depth role_path vs Hvs Hwf (resolving role_name initial))
      as (st' & Hst' & Hobj).
    fold hash_role'. rewrite Hst'. cbn [mbind outcome_bind].
    unfold hexdigest. rewrite Hobj. reflexivity. }
  split; [exact Hone|].
  intros depth fs fs' role_name role_path pre q tree tree' post
         Hres Hvs Hvs' Hwf Hwf' Hedit.
  split; [exact (Hone _ _ _ _ _ Hres Hvs Hwf)|].
  split; [exact (Hone _ _ _ _ _ Hres Hvs' Hwf')|].
  exact (visits_hash_input_edit pre post q tree tree' Hedit).
Qed.

End VisitsOfHashRole.

(** C2 as stated fails: the role [web] of [Example.fs] and of
    [Example.fs_reordered] declares the same two dependencies, unchanged, in
    the two possible orders, and has two fingerprints. *)
Lemma dependency_order_changes_fingerprint :
  ~ (forall (load : pyval -> outcome string) (yaml : string -> outcome pyval)
            depth fs1 fs2 role_name role_path deps1 deps2 digest1 digest2,
        resolve_role_to_path load role_name = Ok role_path ->
        get_dependencies_for_role yaml fs1 role_path = Ok deps1 ->
        get_dependencies_for_role yaml fs2 role_path = Ok deps2 ->
        Permutation deps1 deps2 ->
        (forall name q, In (Ok name) deps1 -> resolve_role_to_path load name = Ok q ->
                        fs_lookup fs1 q = fs_lookup fs2 q) ->
        get_role_fingerprint load yaml depth fs1 role_name = Ok digest1 ->
        get_role_fingerprint load yaml depth fs2 role_name = Ok digest2 ->
        digest1 = digest2).
Proof.
  intros H.
  specialize (H Example.role_include_load Example.yaml_load 2
                Example.fs Example.fs_reordered (PStr "web") "/roles/web"
                [Ok (PStr "db"); Ok (PStr "common")]
                [Ok (PStr "common"); Ok (PStr "db")]
                "b49e4885f5ec1a3626acd1e86a097308ba5e4fa9d06c9ccc8f154f42c46da128" "f32ed6158f9a46fc148f4181f44c6d6506473b5e72041e21f46fc6cf861ec281"
                eq_refl eq_refl eq_refl (perm_swap _ _ _)).
  assert (get_role_fingerprint Example.role_include_load Example.yaml_load 2
            Example.fs (PStr "web") = Ok "b49e4885f5ec1a3626acd1e86a097308ba5e4fa9d06c9ccc8f154f42c46da128") as Ha
    by (vm_compute; reflexivity).
  assert (get_role_fingerprint Example.role_include_load Example.yaml_load 2
            Example.fs_reordered (PStr "web") = Ok "f32ed6158f9a46fc148f4181f44c6d6506473b5e72041e21f46fc6cf861ec281") as Hb
    by (vm_compute; reflexivity).
  assert (forall name q,
             In (Ok name) [Ok (PStr "db"); Ok (PStr "common")] ->
             resolve_role_to_path Example.role_include_load name = Ok q ->
             fs_lookup Example.fs q = fs_lookup Example.fs_reordered q) as Hsame.
  { intros name q [Hin | [Hin | []]] Hres; injection Hin as <-;
      vm_compute in Hres; injection Hres as <-; reflexivity. }
  specialize (H Hsame Ha Hb). discriminate H.
Qed.

(** Several changes at once can leave the hash input as it was: here a file
    is added while another file loses the bytes that spelled it. *)
Example hash_input_of_two_trees :
  tree_hash_input "/r" (Dir [("a", File "x::/r/b::y")]) =
  tree_hash_input "/r" (Dir [("a", File "x"); ("b", File "y")]).
Proof. vm_compute. reflexivity. Qed.

Lemma fingerprint_hashes_visits_in_declared_order_witness :
  get_role_fingerprint Example.role_include_load Example.yaml_load 2
    Example.fs (PStr "web") =
  Ok (SHA256.hexdigest
        (visits_hash_input
           ([("/roles/web",
              Example.role_dir "- ping:" "dependencies: [{role: db}, {role: common}]")] ++
            ("/roles/db", Example.role_dir "- ping:" "{}") ::
            [("/roles/common", Example.role_dir "- ping:" "dependencies: []")])))
  /\ get_role_fingerprint Example.role_include_load Example.yaml_load 2
       Example.fs_db_edited (PStr "web") =
     Ok (SHA256.hexdigest
           (visits_hash_input
              ([("/roles/web",
                 Example.role_dir "- ping:" "dependencies: [{role: db}, {role: common}]")] ++
               ("/roles/db", Example.role_dir "- pong:" "{}") ::
               [("/roles/common", Example.role_dir "- ping:" "dependencies: []")])))
  /\ visits_hash_input
       ([("/roles/web",
          Example.role_dir "- ping:" "dependencies: [{role: db}, {role: common}]")] ++
        ("/roles/db", Example.role_dir "- ping:" "{}") ::
        [("/roles/common", Example.role_dir "- ping:" "dependencies: []")]) <>
     visits_hash_input
       ([("/roles/web",
          Example.role_dir "- ping:" "dependencies: [{role: db}, {role: common}]")] ++
        ("/roles/db", Example.role_dir "- pong:" "{}") ::
        [("/roles/common", Example.role_dir "- ping:" "dependencies: []")]).
Proof.
  apply (proj2 (fingerprint_hashes_visits_in_declared_order
                  Example.role_include_load Example.yaml_load)
           2 Example.fs Example.fs_db_edited (PStr "web") "/roles/web").
  - reflexivity.
  - vm_compute. reflexivity.
  - vm_compute. reflexivity.
  - repeat constructor.
  - repeat constructor.
  - apply (edit_below [] "tasks" _ _ [("meta", Dir [("main.yml", File "{}")])]).
    apply (edit_write [] "main.yml" "- ping:" "- pong:" []). discriminate.
Defined.

(** * Further properties of the code *)

(** ** metadata_to_image_config: shape and success *)

Lemma translations_dom metadata table : forall config config',
  for_each (translate metadata) config table = Ok config' ->
  (forall e, In e table -> is_Some (config !! target e)) ->
  forall key, is_Some (config' !! key) <-> is_Some (config !! key).
Proof.
  induction table as [|e table IH]; intros config config' H Hin key.
  - simpl in H. injection H as <-. reflexivity.
  - simpl in H. apply bind_Ok in H as (c1 & He & H).
    assert (forall k, is_Some (c1 !! k) <-> is_Some (config !! k)) as Hc1.
    { intros k. destruct e as [src [tgt tr]].
      destruct (metadata !! src) as [value|] eqn:Hsrc.
      - destruct (translate_present _ _ _ _ _ _ _ Hsrc He) as (r & _ & ->).
        rewrite lookup_insert_is_Some'. split; [|auto].
        intros [<- | Hk]; [|exact Hk].
        exact (Hin (src, (tgt, tr)) (or_introl eq_refl)).
      - rewrite translate_absent in He by exact Hsrc. injection He as <-. reflexivity. }
    rewrite (IH c1 config' H); [apply Hc1|].
    intros e' He'. apply Hc1, Hin. right. exact He'.
Qed.

Lemma default_config_keys (key : string) :
  is_Some (default_config !! key) <-> In key config_keys.
Proof.
  unfold default_config, config_keys.
  rewrite !lookup_insert_is_Some', lookup_empty, is_Some_alt. simpl.
  intuition congruence.
Qed.

(** X1. Whatever the metadata, a returned image configuration has exactly
    the eleven fields of the initial [config]: no field is lost and no key of
    the metadata is copied under its own name. *)
Theorem image_config_has_fixed_fields :
  forall metadata config,
    metadata_to_image_config metadata = Ok config ->
    forall key, is_Some (config !! key) <-> In key config_keys.
Proof.
  intros metadata config H key.
  rewrite <- default_config_keys.
  apply (translations_dom metadata TRANSLATORS default_config config H).
  intros e He. apply default_config_keys.
  simpl in He. repeat (destruct He as [<- | He]; [simpl; tauto|]). destruct He.
Qed.

Lemma image_config_has_fixed_fields_witness :
  (is_Some ((<["User" := PStr "root"]> default_config) !! "User") <-> In "User" config_keys)
  /\ (is_Some ((<["User" := PStr "root"]> default_config) !! "image") <->
      In "image" config_keys).
Proof.
  split.
  - apply (image_config_has_fixed_fields
             {[ "user" := PStr "root"; "image" := PStr "centos:7" ]}).
    reflexivity.
  - apply (image_config_has_fixed_fields
             {[ "user" := PStr "root"; "image" := PStr "centos:7" ]}).
    reflexivity.
Defined.

Lemma translations_return metadata table :
  (forall src tgt tr value,
      In (src, (tgt, tr)) table -> metadata !! src = Some value ->
      returns (run tr value)) ->
  forall config, returns (for_each (translate metadata) config table).
Proof.
  induction table as [|[src [tgt tr]] table IH]; intros Hrun config.
  - exists config. reflexivity.
  - cbn [for_each].
    assert (returns (translate metadata config (src, (tgt, tr)))) as [c1 Hc1].
    { unfold translate. destruct (metadata !! src) as [value|] eqn:Hsrc.
      - destruct (Hrun src tgt tr value (or_introl eq_refl) Hsrc) as [r Hr].
        unfold run in Hr. rewrite Hr. eexists. reflexivity.
      - eexists. reflexivity. }
    rewrite Hc1. cbn [mbind outcome_bind]. apply IH.
    intros s t r v Hin Hs. apply (Hrun s t r v); [right; exact Hin | exact Hs].
Qed.

Lemma bind_terminates {A B} (m : outcome A) (f : A -> outcome B) :
  terminates m -> (forall a, terminates (f a)) -> terminates (a ← m; f a).
Proof. intros Hm Hf. destruct m; [apply Hf|discriminate|contradiction]. Qed.

Lemma comprehension_terminates {A B} (f : A -> outcome B) (xs : list A) :
  (forall x, terminates (f x)) -> terminates (comprehension f xs).
Proof.
  intros Hf. induction xs as [|x xs IH]; [discriminate|].
  cbn [comprehension]. apply bind_terminates; [apply Hf|]. intros y.
  apply bind_terminates; [exact IH|]. discriminate.
Qed.

Lemma py_iter_terminates v : terminates (py_iter v).
Proof. destruct v; discriminate. Qed.

Lemma py_int_terminates s : terminates (py_int s).
Proof.
  assert (forall t, terminates (unsigned_literal t)) as Hu.
  { intros t. unfold unsigned_literal.
    destruct (lstrip t); [discriminate|]. destruct (digits 0 _); discriminate. }
  unfold py_int. destruct (lstrip (rstrip s)) as [|a t]; [apply Hu|].
  destruct (Ascii.ascii_dec a "-") as [->|Hm].
  - apply bind_terminates; [apply Hu|discriminate].
  - destruct (Ascii.ascii_dec a "+") as [->|Hp]; [apply Hu|].
    destruct a as [[] [] [] [] [] [] [] []]; try apply Hu; congruence.
Qed.

Lemma expose_terminates acc port_spec : terminates (expose acc port_spec).
Proof.
  unfold expose. destruct port_spec; try discriminate.
  destruct (contains "-" _); [|discriminate].
  destruct (split_first "-" _) as [low high].
  apply bind_terminates; [apply py_int_terminates|]. intros lo.
  apply bind_terminates; [apply py_int_terminates|]. discriminate.
Qed.

Lemma translators_terminate (value : pyval) :
  terminates (ports_to_exposed_ports value) /\
  terminates (format_environment value) /\
  terminates (volumes_to_mounts value).
Proof.
  split; [|split].
  - unfold ports_to_exposed_ports.
    apply bind_terminates; [apply py_iter_terminates|]. intros specs.
    apply bind_terminates; [|discriminate].
    apply for_each_terminates. intros acc spec. apply expose_terminates.
  - unfold format_environment. destruct value; try discriminate.
    assert (terminates (comprehension join_item (map_to_list d))) as H.
    { apply comprehension_terminates. intros [k v]. unfold join_item.
      destruct v; discriminate. }
    destruct (comprehension join_item (map_to_list d)); [discriminate|discriminate|contradiction].
  - unfold volumes_to_mounts.
    apply bind_terminates; [apply py_iter_terminates|]. intros vs.
    apply bind_terminates.
    { apply comprehension_terminates. intros v. destruct v; discriminate. }
    intros split.
    assert (terminates (for_each mount ∅ split)) as H.
    { apply for_each_terminates. intros acc [|p ps]; discriminate. }
    destruct (for_each mount ∅ split); [discriminate|discriminate|contradiction].
Qed.

Lemma for_each_terminates_in {A S} (body : S -> A -> outcome S) (xs : list A) :
  (forall s x, In x xs -> terminates (body s x)) ->
  forall acc, terminates (for_each body acc xs).
Proof.
  induction xs as [|x xs IH]; intros Hbody acc; [discriminate|].
  cbn [for_each]. apply bind_terminates; [apply Hbody; left; reflexivity|].
  intros acc'. apply IH. intros s y Hy. apply Hbody. right. exact Hy.
Qed.

(** X2. [metadata_to_image_config] always returns or raises. It returns
    exactly when each of the three translated keys that is present translates
    ([ports], [environment], [volumes]); the eight other keys of the table
    are never a cause of failure, and the value of each one present is copied
    to its field as it is, whatever its type. *)
Theorem image_config_returns_iff_translators_return :
  forall metadata,
    (returns (metadata_to_image_config metadata) \/
     raises (metadata_to_image_config metadata))
    /\ (returns (metadata_to_image_config metadata) <->
        (forall value, metadata !! "ports" = Some value ->
                       returns (ports_to_exposed_ports value)) /\
        (forall value, metadata !! "environment" = Some value ->
                       returns (format_environment value)) /\
        (forall value, metadata !! "volumes" = Some value ->
                       returns (volumes_to_mounts value)))
    /\ (forall config src tgt value,
          metadata_to_image_config metadata = Ok config ->
          In (src, (tgt, None)) TRANSLATORS ->
          metadata !! src = Some value ->
          config !! tgt = Some value).
Proof.
  intros metadata. split; [|split].
  - assert (terminates (metadata_to_image_config metadata)) as H.
    { apply for_each_terminates_in. intros config e He.
      assert (forall value, terminates (run (snd (snd e)) value)) as Hrun.
      { intros value. destruct (translators_terminate value) as (Hp & Hf & Hv).
        simpl in He.
        repeat (destruct He as [<- | He]; [first [exact Hp|exact Hf|exact Hv|discriminate]|]).
        destruct He. }
      destruct e as [src [tgt tr]]. unfold translate.
      destruct (metadata !! src) as [value|]; [|discriminate].
      apply bind_terminates; [exact (Hrun value)|discriminate]. }
    destruct (metadata_to_image_config metadata);
      [left; eexists; reflexivity|right; eexists; reflexivity|contradiction].
  - split.
    + intros [config H]. repeat split; intros value Hv.
      * destruct (translations_hit metadata TRANSLATORS targets_distinct _ config
                    "ports" "ExposedPorts" (Some ports_to_exposed_ports) value
                    ltac:(simpl; tauto) Hv H) as (r & Hr & _).
        exists r. exact Hr.
      * destruct (translations_hit metadata TRANSLATORS targets_distinct _ config
                    "environment" "Env" (Some format_environment) value
                    ltac:(simpl; tauto) Hv H) as (r & Hr & _).
        exists r. exact Hr.
      * destruct (translations_hit metadata TRANSLATORS targets_distinct _ config
                    "volumes" "Volumes" (Some volumes_to_mounts) value
                    ltac:(simpl; tauto) Hv H) as (r & Hr & _).
        exists r. exact Hr.
    + intros (Hp & He & Hv). apply translations_return.
      intros src tgt tr value Hin Hsrc. simpl in Hin.
      repeat (destruct Hin as [Hin | Hin];
              [injection Hin as <- <- <-;
               first [exact (Hp _ Hsrc) | exact (He _ Hsrc) | exact (Hv _ Hsrc)
                     | eexists; reflexivity]|]).
      destruct Hin.
  - intros config src tgt value H Hin Hsrc.
    destruct (translations_hit metadata TRANSLATORS targets_distinct _ config
                src tgt None value Hin Hsrc H) as (r & Hr & Hcfg).
    simpl in Hr. injection Hr as <-. exact Hcfg.
Qed.

Lemma image_config_returns_iff_translators_return_witness :
  (<["Cmd" := PList [PStr "nginx"; PStr "-g"]]> default_config) !! "Cmd" =
  Some (PList [PStr "nginx"; PStr "-g"]).
Proof.
  apply (proj2 (proj2 (image_config_returns_iff_translators_return
                         {[ "command" := PList [PStr "nginx"; PStr "-g"] ]}))
           _ "command" "Cmd").
  - reflexivity.
  - simpl. tauto.
  - reflexivity.
Defined.

(** ** metadata_to_image_config: environment *)

Lemma insert_keys_lookup (keys : list string) : forall (acc : gmap string pyval) key,
  insert_keys keys acc !! key =
  if decide (key ∈ keys) then Some empty_dict else acc !! key.
Proof.
  unfold insert_keys.
  induction keys as [|q keys IH]; intros acc key.
  - destruct (decide (key ∈ [])) as [H|H]; [|reflexivity].
    apply elem_of_nil in H. destruct H.
  - cbn [fold_left]. rewrite IH.
    destruct (decide (key ∈ keys)) as [Hin|Hout];
      destruct (decide (key ∈ q :: keys)) as [Hin'|Hout'].
    + reflexivity.
    + exfalso. apply Hout'. right. exact Hin.
    + apply elem_of_cons in Hin' as [-> | Hin']; [|contradiction].
      apply lookup_insert_eq.
    + apply lookup_insert_ne. intros <-. apply Hout'. left.
Qed.

Lemma comprehension_join_items (items : list (string * string)) :
  comprehension join_item (prod_map id PStr <$> items) =
  Ok (map (fun kv => PStr (fst kv +:+ "=" +:+ snd kv)) items).
Proof.
  induction items as [|[k v] items IH]; [reflexivity|].
  cbn [fmap list_fmap comprehension]. change (list_fmap _ _ ?f ?l) with (f <$> l).
  cbn [join_item prod_map fst snd id mbind outcome_bind].
  rewrite IH. reflexivity.
Qed.

(** X3. An [environment] given as a mapping of strings becomes the list of
    its [KEY=VALUE] entries: one entry per key, each item of the mapping
    present, nothing else. The order is that of the dictionary. *)
Theorem environment_mapping_becomes_entries :
  forall metadata config (env : gmap string string),
    metadata !! "environment" = Some (PDict (PStr <$> env)) ->
    metadata_to_image_config metadata = Ok config ->
    exists entries,
      config !! "Env" = Some (PList entries) /\
      length entries = size env /\
      (forall entry, In entry entries <->
                     exists key value, env !! key = Some value /\
                                       entry = PStr (key +:+ "=" +:+ value)).
Proof.
  intros metadata config env Henv H.
  destruct (translations_hit metadata TRANSLATORS targets_distinct _ config
              "environment" "Env" (Some format_environment) _
              ltac:(simpl; tauto) Henv H) as (r & Hr & Hcfg).
  cbn [run format_environment] in Hr.
  rewrite map_to_list_fmap, comprehension_join_items in Hr.
  cbn in Hr. injection Hr as <-.
  eexists. split; [exact Hcfg|]. split.
  - rewrite length_map. apply length_map_to_list.
  - intros entry. rewrite in_map_iff. split.
    + intros ([k v] & <- & Hin). exists k, v. split; [|reflexivity].
      apply elem_of_map_to_list, list_elem_of_In. exact Hin.
    + intros (k & v & Hkv & ->). exists (k, v). split; [reflexivity|].
      apply list_elem_of_In, elem_of_map_to_list. exact Hkv.
Qed.

Lemma environment_mapping_becomes_entries_witness :
  exists entries,
    (<["Env" := PList [PStr "A=1"; PStr "B=2"]]> default_config) !! "Env" =
      Some (PList entries) /\
    length entries = size ({[ "A" := "1"; "B" := "2" ]} : gmap string string) /\
    (forall entry, In entry entries <->
                   exists key value,
                     ({[ "A" := "1"; "B" := "2" ]} : gmap string string) !! key = Some value /\
                     entry = PStr (key +:+ "=" +:+ value)).
Proof.
  apply (environment_mapping_becomes_entries
           {[ "environment" := PDict (PStr <$> {[ "A" := "1"; "B" := "2" ]}) ]}).
  - reflexivity.
  - reflexivity.
Defined.

Lemma join_items_type_error (items : list (string * pyval)) :
  (exists kv, In kv items /\ is_str (snd kv) = false) ->
  comprehension join_item items = Raise TypeError.
Proof.
  induction items as [|[k v] items IH]; intros (kv & Hin & Hbad); [destruct Hin|].
  cbn [comprehension].
  destruct (is_str v) eqn:Hv.
  - destruct v; try discriminate Hv.
    change (join_item (k, PStr s)) with (@Ok pyval (PStr (k +:+ "=" +:+ s))).
    cbn [mbind outcome_bind]. rewrite IH; [reflexivity|].
    destruct Hin as [<- | Hin]; [discriminate Hbad|]. exists kv. auto.
  - destruct v; try discriminate Hv; reflexivity.
Qed.

(** X4. An [environment] mapping with a value that is not a string (a number
    or a boolean as YAML loads them, a list, [None]) makes
    [format_environment] raise a type error, and [metadata_to_image_config]
    returns no configuration. *)
Theorem environment_value_must_be_string :
  forall metadata (env : gmap string pyval) key value,
    metadata !! "environment" = Some (PDict env) ->
    env !! key = Some value -> is_str value = false ->
    format_environment (PDict env) = Raise TypeError
    /\ ~ returns (metadata_to_image_config metadata).
Proof.
  intros metadata env key value Henv Hkey Hbad.
  assert (format_environment (PDict env) = Raise TypeError) as Hraise.
  { cbn [format_environment]. rewrite join_items_type_error; [reflexivity|].
    exists (key, value). split; [|exact Hbad].
    apply list_elem_of_In, elem_of_map_to_list. exact Hkey. }
  split; [exact Hraise|]. intros [config H].
  destruct (translations_hit metadata TRANSLATORS targets_distinct _ config
              "environment" "Env" (Some format_environment) _
              ltac:(simpl; tauto) Henv H) as (r & Hr & _).
  cbn [run] in Hr. congruence.
Qed.

Lemma environment_value_must_be_string_witness :
  format_environment (PDict {[ "WORKERS" := PInt 4 ]}) = Raise TypeError
  /\ ~ returns (metadata_to_image_config
                  {[ "environment" := PDict {[ "WORKERS" := PInt 4 ]} ]}).
Proof.
  apply (environment_value_must_be_string _ _ "WORKERS" (PInt 4)); reflexivity.
Defined.

(** ** metadata_to_image_config: volumes *)

Lemma split_strings (vs : list string) :
  comprehension py_split (PStr <$> vs) = Ok (map String.words vs).
Proof.
  induction vs as [|v vs IH]; [reflexivity|].
  cbn [fmap list_fmap comprehension]. change (list_fmap _ _ ?f ?l) with (f <$> l).
  cbn [py_split mbind outcome_bind]. rewrite IH. reflexivity.
Qed.

Lemma mount_all (parts : list (list string)) : forall acc,
  Forall (fun p => p <> []) parts ->
  for_each mount acc parts = Ok (insert_keys (map (fun p => List.hd "" p) parts) acc).
Proof.
  induction parts as [|p parts IH]; intros acc Hall; [reflexivity|].
  apply Forall_cons_iff in Hall as [Hp Hall].
  destruct p as [|w ws]; [congruence|].
  cbn [for_each mount mbind outcome_bind map List.hd]. rewrite IH by exact Hall.
  reflexivity.
Qed.

Lemma mount_blank (parts : list (list string)) : forall acc,
  In [] parts -> for_each mount acc parts = Raise IndexError.
Proof.
  induction parts as [|p parts IH]; intros acc Hin; [destruct Hin|].
  destruct p as [|w ws]; [reflexivity|].
  cbn [for_each mount mbind outcome_bind]. apply IH.
  destruct Hin as [Hin|Hin]; [discriminate Hin|exact Hin].
Qed.

(** X5. For [volumes] given as a list of strings that each hold a word, the
    field [Volumes] maps the first white-space separated word of every entry
    to an empty mapping and has no other key; what follows the first word
    (a mode, a comment) is dropped. *)
Theorem volumes_keep_first_word :
  forall metadata config (vs : list string),
    metadata !! "volumes" = Some (PList (PStr <$> vs)) ->
    Forall (fun v => String.words v <> []) vs ->
    metadata_to_image_config metadata = Ok config ->
    exists mounts,
      config !! "Volumes" = Some (PDict mounts) /\
      (forall v, In v vs -> mounts !! List.hd "" (String.words v) = Some empty_dict) /\
      (forall key, is_Some (mounts !! key) ->
                   exists v, In v vs /\ List.hd "" (String.words v) = key).
Proof.
  intros metadata config vs Hvol Hwords H.
  destruct (translations_hit metadata TRANSLATORS targets_distinct _ config
              "volumes" "Volumes" (Some volumes_to_mounts) _
              ltac:(simpl; tauto) Hvol H) as (r & Hr & Hcfg).
  cbn [run] in Hr. unfold volumes_to_mounts in Hr.
  cbn [py_iter mbind outcome_bind] in Hr. rewrite split_strings in Hr.
  cbn [mbind outcome_bind] in Hr. rewrite mount_all in Hr.
  2:{ apply Forall_forall. intros p Hp.
      apply list_elem_of_In, in_map_iff in Hp as (v & <- & Hv).
      rewrite Forall_forall in Hwords. apply Hwords, list_elem_of_In. exact Hv. }
  cbn in Hr. injection Hr as <-.
  eexists. split; [exact Hcfg|]. split.
  - intros v Hv. rewrite insert_keys_lookup, decide_True; [reflexivity|].
    apply list_elem_of_In, in_map_iff. exists (String.words v). split; [reflexivity|].
    apply in_map. exact Hv.
  - intros key Hkey. rewrite insert_keys_lookup in Hkey.
    destruct (decide _) as [Hin|Hout].
    + apply list_elem_of_In, in_map_iff in Hin as (p & <- & Hp).
      apply in_map_iff in Hp as (v & <- & Hv). exists v. auto.
    + rewrite lookup_empty in Hkey. destruct Hkey as [? Hkey]. discriminate.
Qed.

Lemma volumes_keep_first_word_witness :
  exists mounts,
    (<["Volumes" := PDict {[ "/var/lib/data" := empty_dict; "/srv/www:ro" := empty_dict ]}]>
       default_config) !! "Volumes" = Some (PDict mounts) /\
    (forall v, In v ["/var/lib/data  rw"; " /srv/www:ro"] ->
               mounts !! List.hd "" (String.words v) = Some empty_dict) /\
    (forall key, is_Some (mounts !! key) ->
                 exists v, In v ["/var/lib/data  rw"; " /srv/www:ro"] /\
                           List.hd "" (String.words v) = key).
Proof.
  apply (volumes_keep_first_word
           {[ "volumes" := PList (PStr <$> ["/var/lib/data  rw"; " /srv/www:ro"]) ]}).
  - reflexivity.
  - repeat constructor; discriminate.
  - reflexivity.
Defined.

(** X6. A [volumes] list of strings with an entry that holds no word (empty,
    or white space only) makes the translation raise an index error:
    [metadata_to_image_config] returns no configuration. *)
Theorem blank_volume_raises :
  forall metadata (vs : list string) v,
    metadata !! "volumes" = Some (PList (PStr <$> vs)) ->
    In v vs -> String.words v = [] ->
    volumes_to_mounts (PList (PStr <$> vs)) = Raise IndexError
    /\ ~ returns (metadata_to_image_config metadata).
Proof.
  intros metadata vs v Hvol Hin Hblank.
  assert (volumes_to_mounts (PList (PStr <$> vs)) = Raise IndexError) as Hraise.
  { unfold volumes_to_mounts. cbn [py_iter mbind outcome_bind].
    rewrite split_strings. cbn [mbind outcome_bind].
    rewrite mount_blank; [reflexivity|].
    rewrite <- Hblank. apply in_map. exact Hin. }
  split; [exact Hraise|]. intros [config H].
  destruct (translations_hit metadata TRANSLATORS targets_distinct _ config
              "volumes" "Volumes" (Some volumes_to_mounts) _
              ltac:(simpl; tauto) Hvol H) as (r & Hr & _).
  cbn [run] in Hr. congruence.
Qed.

Lemma blank_volume_raises_witness :
  volumes_to_mounts (PList (PStr <$> ["/data"; "  "])) = Raise IndexError
  /\ ~ returns (metadata_to_image_config
                  {[ "volumes" := PList (PStr <$> ["/data"; "  "]) ]}).
Proof.
  apply (blank_volume_raises _ _ "  ").
  - reflexivity.
  - right. left. reflexivity.
  - reflexivity.
Defined.

(** ** metadata_to_image_config: ports *)

Lemma expose_all_insert_keys (ports : list Z) (acc : gmap string pyval) :
  expose_all acc ports = insert_keys (map py_str ports) acc.
Proof.
  unfold expose_all, insert_keys. revert acc.
  induction ports as [|p ports IH]; intros acc; [reflexivity|].
  cbn [fold_left map]. apply IH.
Qed.

(** What [expose] adds depends on the port specification alone. *)
Lemma expose_keys (port_spec : pyval) (acc acc' : gmap string pyval) :
  expose acc port_spec = Ok acc' ->
  exists keys, forall a, expose a port_spec = Ok (insert_keys keys a).
Proof.
  unfold expose. destruct port_spec as [| | |spec| |]; try discriminate.
  destruct (contains "-" _).
  - destruct (split_first "-" _) as [low high].
    destruct (py_int low) as [lo| |]; try discriminate.
    destruct (py_int high) as [hi| |]; try discriminate.
    intros _. exists (map py_str (py_range lo (hi + 1))). intros a.
    cbn [mbind outcome_bind]. rewrite expose_all_insert_keys. reflexivity.
  - intros _. exists [List.last (split_on ":" spec) ""]. intros a. reflexivity.
Qed.

Lemma insert_keys_commute (ks1 ks2 : list string) (acc : gmap string pyval) :
  insert_keys ks1 (insert_keys ks2 acc) = insert_keys ks2 (insert_keys ks1 acc).
Proof.
  apply map_eq. intros key. rewrite !insert_keys_lookup.
  destruct (decide (key ∈ ks1)), (decide (key ∈ ks2)); reflexivity.
Qed.

Lemma expose_permutation (specs specs' : list pyval) :
  Permutation specs specs' ->
  forall acc result,
    for_each expose acc specs = Ok result -> for_each expose acc specs' = Ok result.
Proof.
  induction 1 as [|x l l' _ IH|x y l|l l' l'' _ IH1 _ IH2]; intros acc result H.
  - exact H.
  - cbn [for_each] in H |- *. apply bind_Ok in H as (a1 & Hx & H).
    rewrite Hx. cbn [mbind outcome_bind]. exact (IH _ _ H).
  - cbn [for_each] in H |- *.
    apply bind_Ok in H as (a1 & Hy & H). apply bind_Ok in H as (a2 & Hx & H).
    destruct (expose_keys _ _ _ Hy) as [ky Hky].
    destruct (expose_keys _ _ _ Hx) as [kx Hkx].
    rewrite Hky in Hy. injection Hy as <-. rewrite Hkx in Hx. injection Hx as <-.
    rewrite Hkx. cbn [mbind outcome_bind]. rewrite Hky. cbn [mbind outcome_bind].
    rewrite insert_keys_commute. exact H.
  - exact (IH2 _ _ (IH1 _ _ H)).
Qed.

(** X7. The exposed ports do not depend on the order of the [ports] list:
    when the translation of a list returns, that of any rearrangement of the
    list returns the same mapping. *)
Theorem exposed_ports_ignore_order :
  forall specs specs' exposed,
    Permutation specs specs' ->
    ports_to_exposed_ports (PList specs) = Ok exposed ->
    ports_to_exposed_ports (PList specs') = Ok exposed.
Proof.
  intros specs specs' exposed Hperm H.
  unfold ports_to_exposed_ports in *. cbn [py_iter mbind outcome_bind] in *.
  apply bind_Ok in H as (d & Hd & H).
  rewrite (expose_permutation _ _ Hperm _ _ Hd). exact H.
Qed.

Lemma exposed_ports_ignore_order_witness :
  ports_to_exposed_ports (PList [PStr "443"; PStr "8080-8081"]) =
  Ok (PDict {[ "443" := empty_dict; "8080" := empty_dict; "8081" := empty_dict ]}).
Proof.
  apply (exposed_ports_ignore_order [PStr "8080-8081"; PStr "443"]).
  - apply perm_swap.
  - reflexivity.
Defined.

(** X8. A range whose upper bound is below its lower bound exposes nothing
    and raises nothing: the loop leaves the mapping as it was. *)
Theorem reversed_range_exposes_nothing :
  forall acc low high lo hi,
    contains ":" (low +:+ String "-" high) = false ->
    contains "-" low = false ->
    py_int low = Ok lo -> py_int high = Ok hi ->
    (hi < lo)%Z ->
    expose acc (PStr (low +:+ String "-" high)) = Ok acc
    /\ ports_to_exposed_ports (PList [PStr (low +:+ String "-" high)]) = Ok empty_dict.
Proof.
  intros acc low high lo hi Hcolon Hdash Hlo Hhi Hlt.
  assert (forall a, expose a (PStr (low +:+ String "-" high)) = Ok a) as H.
  { intros a. rewrite (expose_range a low high lo hi Hcolon Hdash Hlo Hhi).
    unfold py_range. rewrite seqZ_nil by lia. reflexivity. }
  split; [apply H|].
  unfold ports_to_exposed_ports. cbn [py_iter for_each mbind outcome_bind].
  rewrite H. reflexivity.
Qed.

Lemma reversed_range_exposes_nothing_witness :
  expose ∅ (PStr ("9000" +:+ String "-" "8000")) = Ok ∅
  /\ ports_to_exposed_ports (PList [PStr ("9000" +:+ String "-" "8000")]) = Ok empty_dict.
Proof.
  apply (reversed_range_exposes_nothing ∅ "9000" "8000" 9000 8000);
    [reflexivity|reflexivity|reflexivity|reflexivity|lia].
Defined.

Lemma for_each_raises {A S} (body : S -> A -> outcome S) (acc acc' : S)
    (before after : list A) (x : A) (e : exn) :
  for_each body acc before = Ok acc' -> body acc' x = Raise e ->
  for_each body acc (before ++ x :: after) = Raise e.
Proof.
  intros Hb Hx. rewrite for_each_app, Hb. cbn [mbind outcome_bind for_each].
  rewrite Hx. reflexivity.
Qed.

(** X9. A port that is not a string (a bare number in the YAML document is
    loaded as an integer) has no [rsplit]: once the entries before it are
    translated, [ports_to_exposed_ports] raises an attribute error. *)
Theorem port_entry_must_be_string :
  forall before entry after,
    is_str entry = false ->
    returns (for_each expose ∅ before) ->
    ports_to_exposed_ports (PList (before ++ entry :: after)) = Raise AttributeError.
Proof.
  intros before entry after Hbad [acc Hacc].
  unfold ports_to_exposed_ports. cbn [py_iter mbind outcome_bind].
  rewrite (for_each_raises expose ∅ acc before after entry AttributeError Hacc);
    [reflexivity|].
  destruct entry; try reflexivity. discriminate Hbad.
Qed.

Lemma port_entry_must_be_string_witness :
  ports_to_exposed_ports (PList ([PStr "443"] ++ PInt 8080 :: [])) = Raise AttributeError.
Proof.
  apply port_entry_must_be_string.
  - reflexivity.
  - eexists. reflexivity.
Defined.

Lemma contains_lstrip (c : ascii) (s : string) :
  Ascii.is_space c = false -> contains c s = true -> contains c (lstrip s) = true.
Proof.
  intros Hc. induction s as [|a s IH]; [discriminate|].
  cbn [lstrip]. destruct (Ascii.is_space a) eqn:Ha; [|auto].
  cbn [contains]. intros H. apply orb_true_iff in H as [H | H]; [|auto].
  apply ascii_eqb_true in H. congruence.
Qed.

Lemma contains_rev_app (c : ascii) (s : string) : forall t,
  contains c (String.rev_app s t) = contains c s || contains c t.
Proof.
  induction s as [|a s IH]; intros t; [reflexivity|].
  cbn [String.rev_app]. rewrite IH. cbn [contains].
  destruct (ascii_eqb a c), (contains c s), (contains c t); reflexivity.
Qed.

Lemma contains_rev (c : ascii) (s : string) :
  contains c (String.rev s) = contains c s.
Proof. unfold String.rev. rewrite contains_rev_app. cbn. apply orb_false_r. Qed.

Lemma contains_rstrip (c : ascii) (s : string) :
  Ascii.is_space c = false -> contains c s = true -> contains c (rstrip s) = true.
Proof.
  intros Hc H. unfold rstrip. rewrite contains_rev.
  apply contains_lstrip; [exact Hc|]. rewrite contains_rev. exact H.
Qed.

Lemma digits_reject (c : ascii) (s : string) : forall acc,
  Ascii.is_nat c = None -> contains c s = true -> digits acc s = None.
Proof.
  intros acc Hc. revert acc. induction s as [|a s IH]; intros acc H; [discriminate|].
  cbn [contains] in H. cbn [digits].
  destruct (Ascii.is_nat a) as [d|] eqn:Ha; [|reflexivity].
  apply IH. apply orb_true_iff in H as [H | H]; [|exact H].
  apply ascii_eqb_true in H. congruence.
Qed.

Lemma unsigned_literal_reject (c : ascii) (s : string) :
  Ascii.is_nat c = None -> Ascii.is_space c = false -> contains c s = true ->
  unsigned_literal s = Raise ValueError.
Proof.
  intros Hn Hs H. unfold unsigned_literal.
  pose proof (contains_lstrip c s Hs H) as Hl.
  destruct (lstrip s) as [|a t]; [reflexivity|].
  rewrite (digits_reject c _ 0%Z Hn Hl). reflexivity.
Qed.

Lemma py_int_ok_or_value_error (s : string) :
  returns (py_int s) \/ py_int s = Raise ValueError.
Proof.
  assert (forall t, returns (unsigned_literal t) \/ unsigned_literal t = Raise ValueError)
    as Hu.
  { intros t. unfold unsigned_literal. destruct (lstrip t); [auto|].
    destruct (digits 0 _); [left; eexists; reflexivity | auto]. }
  unfold py_int. destruct (lstrip (rstrip s)) as [|a t]; [apply Hu|].
  destruct (Ascii.ascii_dec a "-") as [->|Hm].
  - destruct (Hu t) as [[z Hz] | Hz]; rewrite Hz; [left; eexists; reflexivity | auto].
  - destruct (Ascii.ascii_dec a "+") as [->|Hp]; [apply Hu|].
    destruct a as [[] [] [] [] [] [] [] []]; try apply Hu; congruence.
Qed.

(** A text holding a character that is no digit, no white space and no sign
    is not a number. *)
Lemma py_int_reject (c : ascii) (s : string) :
  Ascii.is_nat c = None -> Ascii.is_space c = false ->
  c <> "-"%char -> c <> "+"%char ->
  contains c s = true -> py_int s = Raise ValueError.
Proof.
  intros Hn Hs Hm Hp H. unfold py_int.
  pose proof (contains_lstrip c _ Hs (contains_rstrip c s Hs H)) as Hl.
  destruct (lstrip (rstrip s)) as [|a t]; [discriminate Hl|].
  assert (a = c \/ contains c t = true) as Hat.
  { cbn [contains] in Hl. apply orb_true_iff in Hl as [Hl | Hl]; [|auto].
    left. apply ascii_eqb_true. exact Hl. }
  assert (unsigned_literal (String a t) = Raise ValueError) as Hwhole
    by exact (unsigned_literal_reject c _ Hn Hs Hl).
  destruct (Ascii.ascii_dec a "-") as [->|Ha].
  - destruct Hat as [Hat | Hat]; [congruence|].
    rewrite (unsigned_literal_reject c t Hn Hs Hat). reflexivity.
  - destruct (Ascii.ascii_dec a "+") as [->|Ha'].
    + destruct Hat as [Hat | Hat]; [congruence|].
      exact (unsigned_literal_reject c t Hn Hs Hat).
    + destruct a as [[] [] [] [] [] [] [] []]; try exact Hwhole; congruence.
Qed.

(** X10. A single port is kept as it is written, suffix included
    ([53/udp]); in a range, a bound that holds anything but digits, white
    space and a sign (the suffix of [8000-8010/tcp]) makes [expose] raise a
    value error. *)
Theorem range_bounds_must_be_numbers :
  (forall acc spec,
      contains ":" spec = false -> contains "-" spec = false ->
      expose acc (PStr spec) = Ok (<[spec := empty_dict]> acc))
  /\ (forall acc low high c,
        contains ":" (low +:+ String "-" high) = false ->
        contains "-" low = false ->
        Ascii.is_nat c = None -> Ascii.is_space c = false ->
        c <> "-"%char -> c <> "+"%char ->
        contains c low = true \/ contains c high = true ->
        expose acc (PStr (low +:+ String "-" high)) = Raise ValueError).
Proof.
  split.
  - intros acc spec Hcolon Hdash. unfold expose.
    rewrite (split_on_absent _ _ Hcolon). cbn [List.last]. rewrite Hdash. reflexivity.
  - intros acc low high c Hcolon Hdash Hn Hs Hm Hp Hc. unfold expose.
    rewrite (split_on_absent _ _ Hcolon). cbn [List.last].
    rewrite contains_app, (split_first_app _ _ _ Hdash).
    destruct Hc as [Hc | Hc].
    + rewrite (py_int_reject c low Hn Hs Hm Hp Hc). reflexivity.
    + destruct (py_int_ok_or_value_error low) as [[lo Hlo] | Hlo]; rewrite Hlo;
        [|reflexivity].
      cbn [mbind outcome_bind]. rewrite (py_int_reject c high Hn Hs Hm Hp Hc).
      reflexivity.
Qed.

Lemma range_bounds_must_be_numbers_witness :
  expose ∅ (PStr "53/udp") = Ok (<["53/udp" := empty_dict]> ∅)
  /\ expose ∅ (PStr ("8000" +:+ String "-" "8010/tcp")) = Raise ValueError.
Proof.
  destruct range_bounds_must_be_numbers as [Hsingle Hrange].
  split.
  - apply Hsingle; reflexivity.
  - apply (Hrange ∅ "8000" "8010/tcp" "/"%char); try reflexivity; try discriminate.
    right. reflexivity.
Defined.

(** ** get_role_fingerprint: the digest *)

Module SHA256Facts.
Import SHA256.
Local Open Scope Z_scope.

Lemma round_length v kw : length (round v kw) = 8%nat.
Proof. reflexivity. Qed.

Lemma rounds_length (kws : list (Z * Z)) : forall v,
  length v = 8%nat -> length (fold_left round kws v) = 8%nat.
Proof.
  induction kws as [|kw kws IH]; intros v Hv; [exact Hv|].
  cbn [fold_left]. apply IH. apply round_length.
Qed.

Lemma compress_length hv block : length hv = 8%nat -> length (compress hv block) = 8%nat.
Proof.
  intros Hv. unfold compress. rewrite length_map, length_combine.
  rewrite rounds_length by exact Hv. rewrite Hv. reflexivity.
Qed.

Lemma process_length (n : nat) : forall hv bs,
  length hv = 8%nat -> length (process n hv bs) = 8%nat.
Proof.
  induction n as [|n IH]; intros hv bs Hv; [exact Hv|].
  cbn [process]. apply IH. apply compress_length. exact Hv.
Qed.

Lemma digest_words_length msg : length (digest_words msg) = 8%nat.
Proof. unfold digest_words. apply process_length. vm_compute. reflexivity. Qed.

Lemma hex_digit_lower (x : Z) : 0 <= x < 16 -> is_lower_hex (hex_digit x) = true.
Proof.
  intros Hx.
  assert (x = 0 \/ x = 1 \/ x = 2 \/ x = 3 \/ x = 4 \/ x = 5 \/ x = 6 \/ x = 7 \/
          x = 8 \/ x = 9 \/ x = 10 \/ x = 11 \/ x = 12 \/ x = 13 \/ x = 14 \/ x = 15)
    as H by lia.
  repeat (destruct H as [-> | H]; [reflexivity|]). subst x. reflexivity.
Qed.

Lemma hex_of_byte_lower (b : Z) :
  exists c1 c2, hex_of_byte (Z.land b 0xff) = String c1 (String c2 "") /\
                is_lower_hex c1 = true /\ is_lower_hex c2 = true.
Proof.
  unfold hex_of_byte. eexists _, _. split; [reflexivity|].
  assert (0 <= Z.land b 0xff < 256) as Hb.
  { change 0xff with (Z.ones 8). rewrite Z.land_ones by lia.
    apply Z.mod_pos_bound. lia. }
  split; apply hex_digit_lower.
  - rewrite Z.shiftr_div_pow2 by lia. change (2 ^ 4) with 16.
    split; [apply Z.div_pos; lia | apply Z.div_lt_upper_bound; lia].
  - change 0xf with (Z.ones 4). rewrite Z.land_ones by lia.
    apply Z.mod_pos_bound. lia.
Qed.

Lemma be_bytes_hex (n : nat) (x : Z) :
  Forall two_hex (map hex_of_byte (be_bytes n x)) /\ length (be_bytes n x) = n.
Proof.
  unfold be_bytes. split.
  - apply Forall_forall. intros s Hs.
    apply list_elem_of_In, in_map_iff in Hs as (b & <- & Hb).
    apply in_map_iff in Hb as (i & <- & _). apply hex_of_byte_lower.
  - rewrite length_map, length_rev, length_seq. reflexivity.
Qed.

Lemma concat_cons2 (s s' : string) (rest : list string) :
  String.concat "" (s :: s' :: rest) = s +:+ String.concat "" (s' :: rest).
Proof. reflexivity. Qed.

Lemma concat_two_hex (pieces : list string) :
  Forall two_hex pieces ->
  String.length (String.concat "" pieces) = (2 * length pieces)%nat /\
  forallb is_lower_hex (list_ascii_of_string (String.concat "" pieces)) = true.
Proof.
  induction 1 as [|s pieces (c1 & c2 & -> & H1 & H2) _ IH]; [split; reflexivity|].
  destruct IH as [IHlen IHhex].
  destruct pieces as [|s' pieces].
  - cbn [String.concat String.length list_ascii_of_string forallb length].
    rewrite H1, H2. split; reflexivity.
  - rewrite concat_cons2.
    change (String c1 (String c2 "") +:+ String.concat "" (s' :: pieces))
      with (String c1 (String c2 (String.concat "" (s' :: pieces)))).
    cbn [String.length list_ascii_of_string forallb].
    rewrite H1, H2, IHlen, IHhex. cbn [length]. split; [lia|reflexivity].
Qed.

Lemma words_hex (ws : list Z) :
  Forall two_hex (map hex_of_byte (flat_map (be_bytes 4) ws)) /\
  length (flat_map (be_bytes 4) ws) = (4 * length ws)%nat.
Proof.
  induction ws as [|w ws [IHhex IHlen]]; [split; [constructor|reflexivity]|].
  cbn [flat_map]. rewrite map_app, length_app.
  destruct (be_bytes_hex 4 w) as [Hhex Hlen]. split.
  - apply Forall_app. split; assumption.
  - rewrite Hlen, IHlen. cbn [length]. lia.
Qed.

Lemma hexdigest_format (s : string) :
  String.length (hexdigest s) = 64%nat /\
  forallb is_lower_hex (list_ascii_of_string (hexdigest s)) = true.
Proof.
  unfold hexdigest.
  destruct (words_hex (digest_words (bytes_of_string s))) as [Hhex Hlen].
  destruct (concat_two_hex _ Hhex) as [Hl Hh]. split; [|exact Hh].
  rewrite Hl, length_map, Hlen, digest_words_length. reflexivity.
Qed.

End SHA256Facts.

(** X11. A fingerprint, when [get_role_fingerprint] returns one, is a string
    of 64 characters, each a decimal digit or a letter from [a] to [f]. *)
Theorem fingerprint_is_64_lower_hex :
  forall (role_include_load : pyval -> outcome string)
         (yaml_safe_load : string -> outcome pyval) depth fs role_name digest,
    get_role_fingerprint role_include_load yaml_safe_load depth fs role_name = Ok digest ->
    String.length digest = 64 /\
    forallb is_lower_hex (list_ascii_of_string digest) = true.
Proof.
  intros load yaml depth fs role_name digest H.
  unfold get_role_fingerprint in H.
  apply bind_Ok in H as (role_path & _ & H). apply bind_Ok in H as (st & _ & H).
  injection H as <-. apply SHA256Facts.hexdigest_format.
Qed.

Lemma fingerprint_is_64_lower_hex_witness :
  String.length "95c8b27802257d2fd3ac1865b14cdf1ef384b8bedf6c01e6b641fe5fb2cb17e8" = 64 /\
  forallb is_lower_hex
    (list_ascii_of_string
       "95c8b27802257d2fd3ac1865b14cdf1ef384b8bedf6c01e6b641fe5fb2cb17e8") = true.
Proof.
  apply (fingerprint_is_64_lower_hex Example.role_include_load Example.yaml_load 1
           Example.fs (PStr "db")).
  vm_compute. reflexivity.
Defined.

(** ** hash_role: what a role adds to the running hash *)

Lemma prepend_initial (st : state) : prepend st initial = st.
Proof.
  destruct st. unfold prepend. cbn. rewrite string_app_nil_r, app_nil_r. reflexivity.
Qed.

Lemma prepend_update (st s : state) (data : string) :
  prepend st (update s data) = update (prepend st s) data.
Proof. unfold prepend, update. cbn. rewrite string_app_assoc. reflexivity. Qed.

Lemma prepend_resolving (st s : state) (role_name : pyval) :
  prepend st (resolving role_name s) = resolving role_name (prepend st s).
Proof. unfold prepend, resolving. cbn. rewrite app_assoc. reflexivity. Qed.

Lemma for_each_frame {A} (body : state -> A -> outcome state) (st : state) (xs : list A) :
  (forall s x, body (prepend st s) x = prepend st <$> body s x) ->
  forall s, for_each body (prepend st s) xs = prepend st <$> for_each body s xs.
Proof.
  intros Hbody. induction xs as [|x xs IH]; intros s; [reflexivity|].
  cbn [for_each]. rewrite Hbody. destruct (body s x); [apply IH|reflexivity|reflexivity].
Qed.

Lemma hash_file_frame fs st s file_path :
  hash_file fs (prepend st s) file_path = prepend st <$> hash_file fs s file_path.
Proof.
  unfold hash_file. destruct (open_read fs file_path) as [ifs| |];
    [|reflexivity|reflexivity].
  cbn [mbind outcome_bind fmap outcome_fmap].
  rewrite !read_blocks_spec, prepend_update. reflexivity.
Qed.

Lemma hash_dir_frame fs st s dir_path :
  hash_dir fs (prepend st s) dir_path = prepend st <$> hash_dir fs s dir_path.
Proof.
  rewrite !hash_dir_unfold. apply for_each_frame.
  intros s' item. unfold item_body. apply for_each_frame.
  intros s'' file_path. unfold file_body.
  rewrite <- !prepend_update. apply hash_file_frame.
Qed.

Section Frame.

Variable role_include_load : pyval -> outcome string.
Variable yaml_safe_load : string -> outcome pyval.

Let loop := for_dependencies role_include_load.
Let hash_role' := hash_role role_include_load yaml_safe_load.

Lemma for_dependencies_frame recurse st (deps : list (outcome pyval)) :
  (forall s path, recurse (prepend st s) path = prepend st <$> recurse s path) ->
  forall s, loop recurse (prepend st s) deps = prepend st <$> loop recurse s deps.
Proof.
  intros Hrec. induction deps as [|next deps IH]; intros s; [reflexivity|].
  unfold loop in *. cbn [for_dependencies].
  destruct next as [dependency| |]; [|reflexivity|reflexivity].
  cbn [mbind outcome_bind]. destruct (truthy dependency); [|apply IH].
  destruct (resolve_role_to_path role_include_load dependency) as [path| |];
    [|reflexivity|reflexivity].
  cbn [mbind outcome_bind]. rewrite <- prepend_resolving, Hrec.
  destruct (recurse (resolving dependency s) path); [apply IH|reflexivity|reflexivity].
Qed.

Lemma hash_role_frame fs st : forall depth s role_path,
  hash_role' depth fs (prepend st s) role_path =
  prepend st <$> hash_role' depth fs s role_path.
Proof.
  induction depth as [|depth IH]; intros s role_path; [reflexivity|].
  unfold hash_role'. cbn [hash_role]. rewrite hash_dir_frame.
  destruct (hash_dir fs s role_path) as [s1| |]; [|reflexivity|reflexivity].
  cbn [fmap outcome_fmap mbind outcome_bind].
  destruct (get_dependencies_for_role yaml_safe_load fs role_path) as [deps| |];
    [|reflexivity|reflexivity].
  cbn [mbind outcome_bind]. apply for_dependencies_frame. exact IH.
Qed.

(** X12. What [hash_role] adds to the running hash for a role does not
    depend on what was hashed before: from any state, the outcome is the
    outcome from the fresh hash object, with the bytes fed and the names
    resolved before put in front. The content of a dependency is hashed
    inline, byte for byte as if it were hashed alone. *)
Theorem hash_role_appends :
  forall depth fs st role_path,
    hash_role' depth fs st role_path =
    prepend st <$> hash_role' depth fs initial role_path.
Proof.
  intros depth fs st role_path.
  rewrite <- (prepend_initial st) at 1. apply hash_role_frame.
Qed.

Lemma for_dependencies_deeper (r1 r2 : state -> string -> outcome state)
    (deps : list (outcome pyval)) :
  (forall st path, terminates (r1 st path) -> r2 st path = r1 st path) ->
  forall st, terminates (loop r1 st deps) -> loop r2 st deps = loop r1 st deps.
Proof.
  intros Hrec. induction deps as [|next deps IH]; intros st Ht; [reflexivity|].
  unfold loop in *. cbn [for_dependencies] in Ht |- *.
  destruct next as [dependency| |]; [|reflexivity|reflexivity].
  cbn [mbind outcome_bind] in Ht |- *.
  destruct (truthy dependency); [|exact (IH st Ht)].
  destruct (resolve_role_to_path role_include_load dependency) as [path| |];
    [|reflexivity|reflexivity].
  cbn [mbind outcome_bind] in Ht |- *.
  assert (terminates (r1 (resolving dependency st) path)) as H1.
  { intros E. rewrite E in Ht. apply Ht. reflexivity. }
  rewrite (Hrec _ _ H1).
  destruct (r1 (resolving dependency st) path) as [st'| |];
    [|reflexivity|reflexivity].
  cbn [mbind outcome_bind] in Ht |- *. exact (IH st' Ht).
Qed.

Lemma hash_role_deeper fs : forall depth extra st role_path,
  terminates (hash_role' depth fs st role_path) ->
  hash_role' (depth + extra) fs st role_path = hash_role' depth fs st role_path.
Proof.
  induction depth as [|depth IH]; intros extra st role_path Ht.
  - exfalso. apply Ht. reflexivity.
  - unfold hash_role' in *. cbn [Nat.add hash_role] in Ht |- *.
    destruct (hash_dir fs st role_path) as [st1| |]; [|reflexivity|reflexivity].
    cbn [mbind outcome_bind] in Ht |- *.
    destruct (get_dependencies_for_role yaml_safe_load fs role_path) as [deps| |];
      [|reflexivity|reflexivity].
    cbn [mbind outcome_bind] in Ht |- *.
    apply for_dependencies_deeper; [|exact Ht].
    intros s path Hs. exact (IH extra s path Hs).
Qed.

(** X13. The depth given to the recursion decides nothing but whether it is
    enough: once [get_role_fingerprint] returns a digest or raises at some
    depth, it does exactly the same at every greater depth. *)
Theorem fingerprint_stable_in_depth :
  forall depth extra fs role_name,
    terminates (get_role_fingerprint role_include_load yaml_safe_load depth fs role_name) ->
    get_role_fingerprint role_include_load yaml_safe_load (depth + extra) fs role_name =
    get_role_fingerprint role_include_load yaml_safe_load depth fs role_name.
Proof.
  intros depth extra fs role_name Ht. unfold get_role_fingerprint in *.
  destruct (resolve_role_to_path role_include_load role_name) as [role_path| |];
    [|reflexivity|reflexivity].
  cbn [mbind outcome_bind] in Ht |- *.
  fold hash_role'. fold hash_role' in Ht.
  rewrite hash_role_deeper; [reflexivity|].
  intros E. rewrite E in Ht. apply Ht. reflexivity.
Qed.

End Frame.

Lemma fingerprint_stable_in_depth_witness :
  get_role_fingerprint Example.role_include_load Example.yaml_load (2 + 5)
    Example.fs (PStr "web") =
  get_role_fingerprint Example.role_include_load Example.yaml_load 2
    Example.fs (PStr "web").
Proof.
  apply fingerprint_stable_in_depth. vm_compute. discriminate.
Defined.

(** ** get_role_fingerprint: what makes it raise *)

Section FingerprintErrors.

Variable role_include_load : pyval -> outcome string.
Variable yaml_safe_load : string -> outcome pyval.

Let resolve := resolve_role_to_path role_include_load.
Let dependencies := get_dependencies_for_role yaml_safe_load.
Let loop := for_dependencies role_include_load.
Let hash_role' := hash_role role_include_load yaml_safe_load.
Let fingerprint := get_role_fingerprint role_include_load yaml_safe_load.
Let depends := depends_on role_include_load yaml_safe_load.

Lemma fingerprint_of_dependencies depth fs role_name role_path tree :
  resolve role_name = Ok role_path ->
  fs_lookup fs role_path = Some tree -> wf_node tree = true ->
  forall e, dependencies fs role_path = Raise e ->
  fingerprint (S depth) fs role_name = Raise e.
Proof.
  intros Hres Htree Hwf e Hdeps.
  unfold fingerprint, get_role_fingerprint. fold resolve. rewrite Hres.
  cbn [mbind outcome_bind hash_role].
  rewrite (hash_dir_spec fs _ _ tree Htree Hwf). cbn [mbind outcome_bind].
  fold dependencies. rewrite Hdeps. reflexivity.
Qed.

(** X14. A role cannot be fingerprinted without its dependency-declaration
    document: when the resolved path does not exist, or holds a well-formed
    tree in which [meta/main.yml] is not a regular file,
    [get_role_fingerprint] raises an I/O error. A missing role directory is
    not reported by the walk, which feeds nothing; the error is that of
    opening the document. *)
Theorem fingerprint_needs_meta_main :
  forall depth fs role_name role_path,
    resolve role_name = Ok role_path ->
    (fs_lookup fs role_path = None \/
     exists tree, fs_lookup fs role_path = Some tree /\ wf_node tree = true /\
                  forall document, descend tree ["meta"; "main.yml"] <> Some (File document)) ->
    fingerprint (S depth) fs role_name = Raise IOError.
Proof.
  intros depth fs role_name role_path Hres [Hnone | (tree & Htree & Hwf & Hmeta)].
  - unfold fingerprint, get_role_fingerprint. fold resolve. rewrite Hres.
    cbn [mbind outcome_bind hash_role].
    unfold hash_dir, os_walk. rewrite Hnone. cbn [for_each mbind outcome_bind].
    unfold get_dependencies_for_role, open_read.
    rewrite meta_main_lookup, Hnone. reflexivity.
  - apply (fingerprint_of_dependencies depth fs role_name role_path tree Hres Htree Hwf).
    unfold dependencies, get_dependencies_for_role, open_read.
    rewrite meta_main_lookup, Htree.
    destruct (descend tree ["meta"; "main.yml"]) as [[document|es]|] eqn:Hd;
      [|reflexivity|reflexivity].
    destruct (Hmeta document). reflexivity.
Qed.

(** X15. The dependency-declaration document must be a mapping whose
    [dependencies], when present, is a sequence of mappings. With the
    document read from a well-formed role directory,
    [get_role_fingerprint] raises (1) an attribute error when the document
    is not a mapping (an empty file loads as [None]), (2) a type error when
    [dependencies] is [None], a boolean or a number, (3) an attribute error
    when the first entry is not a mapping, as a dependency written as a bare
    role name is. *)
Theorem dependency_document_shape :
  forall depth fs role_name role_path tree document loaded,
    resolve role_name = Ok role_path ->
    fs_lookup fs role_path = Some tree -> wf_node tree = true ->
    open_read fs (path_join (path_join role_path "meta") "main.yml") = Ok document ->
    yaml_safe_load document = Ok loaded ->
    (is_dict loaded = false ->
     fingerprint (S depth) fs role_name = Raise AttributeError)
    /\ (forall meta_main value,
          loaded = PDict meta_main ->
          meta_main !! "dependencies" = Some value ->
          value = PNone \/ (exists b, value = PBool b) \/ (exists z, value = PInt z) ->
          fingerprint (S depth) fs role_name = Raise TypeError)
    /\ (forall meta_main entry entries,
          loaded = PDict meta_main ->
          meta_main !! "dependencies" = Some (PList (entry :: entries)) ->
          is_dict entry = false ->
          fingerprint (S depth) fs role_name = Raise AttributeError).
Proof.
  intros depth fs role_name role_path tree document loaded Hres Htree Hwf Hopen Hload.
  assert (forall e,
             (meta_main ← Ok loaded;
              ds ← py_get meta_main "dependencies" (PList []);
              py_iter ds) = Raise e ->
             fingerprint (S depth) fs role_name = Raise e) as Hprologue.
  { intros e He.
    apply (fingerprint_of_dependencies depth fs role_name role_path tree Hres Htree Hwf).
    unfold dependencies, get_dependencies_for_role. rewrite Hopen.
    cbn [mbind outcome_bind] in He |- *. rewrite Hload. cbn [mbind outcome_bind].
    destruct (py_get loaded "dependencies" (PList [])) as [ds| |];
      cbn [mbind outcome_bind] in He |- *; try congruence.
    rewrite He. reflexivity. }
  split; [|split].
  - intros Hbad. apply Hprologue. destruct loaded; try reflexivity. discriminate Hbad.
  - intros meta_main value -> Hvalue Hkind. apply Hprologue.
    cbn [mbind outcome_bind py_get]. rewrite Hvalue. cbn [from_option id].
    destruct Hkind as [-> | [[b ->] | [z ->]]]; reflexivity.
  - intros meta_main entry entries -> Hvalue Hbad.
    unfold fingerprint, get_role_fingerprint. fold resolve. rewrite Hres.
    cbn [mbind outcome_bind hash_role].
    rewrite (hash_dir_spec fs _ _ tree Htree Hwf). cbn [mbind outcome_bind].
    unfold get_dependencies_for_role. rewrite Hopen. cbn [mbind outcome_bind].
    rewrite Hload. cbn [mbind outcome_bind py_get]. rewrite Hvalue.
    cbn [from_option id py_iter mbind outcome_bind map for_dependencies].
    destruct entry; try reflexivity. discriminate Hbad.
Qed.

Lemma hash_role_descends_rtc fs p q :
  rtc (depends fs) p q ->
  forall depth st st', hash_role' depth fs st p = Ok st' ->
  exists depth' st1 st2, hash_role' depth' fs st1 q = Ok st2.
Proof.
  intros Hreach depth st st' H.
  apply rtc_tc in Hreach as [<- | Htc]; [eauto|].
  destruct (hash_role_descends_tc role_include_load yaml_safe_load fs p q Htc
              depth st st' H) as (d & s1 & s2 & _ & Hq).
  eauto.
Qed.

(** X16. A fingerprint is returned only when everything the traversal
    meets is in order: for every role reachable through dependency
    declarations, the dependency document loads and gives its entries, every
    entry yields a value, and every entry that names a role resolves. One
    unresolvable name, however deep, and no digest is returned. *)
Theorem fingerprint_returned_only_if_all_resolve :
  forall depth fs role_name role_path q,
    returns (fingerprint depth fs role_name) ->
    resolve role_name = Ok role_path ->
    rtc (depends fs) role_path q ->
    exists deps,
      dependencies fs q = Ok deps /\
      forall next, In next deps ->
        exists dependency,
          next = Ok dependency /\
          (truthy dependency = true -> returns (resolve dependency)).
Proof.
  intros depth fs role_name role_path q [digest H] Hres Hreach.
  unfold fingerprint, get_role_fingerprint in H. fold resolve in H.
  rewrite Hres in H. cbn [mbind outcome_bind] in H.
  apply bind_Ok in H as (st & Hst & _).
  destruct (hash_role_descends_rtc fs role_path q Hreach depth _ st Hst)
    as (d & s1 & s2 & Hq).
  unfold hash_role' in Hq. destruct d as [|d]; cbn [hash_role] in Hq; [discriminate Hq|].
  apply bind_Ok in Hq as (s3 & _ & Hq). apply bind_Ok in Hq as (deps & Hdeps & Hloop).
  exists deps. split; [exact Hdeps|].
  clear Hdeps. revert s3 Hloop.
  induction deps as [|next' deps IH]; intros s3 Hloop next Hin; [destruct Hin|].
  cbn [for_dependencies] in Hloop. apply bind_Ok in Hloop as (dependency & -> & Hloop).
  destruct (truthy dependency) eqn:Ht.
  - apply bind_Ok in Hloop as (path & Hpath & Hloop).
    apply bind_Ok in Hloop as (s4 & _ & Hloop).
    destruct Hin as [<- | Hin]; [|exact (IH s4 Hloop next Hin)].
    exists dependency. split; [reflexivity|]. intros _. exists path. exact Hpath.
  - destruct Hin as [<- | Hin]; [|exact (IH s3 Hloop next Hin)].
    exists dependency. split; [reflexivity|]. intros Hc. congruence.
Qed.

End FingerprintErrors.

Lemma fingerprint_needs_meta_main_witness :
  get_role_fingerprint Example.role_include_load Example.yaml_load 1
    Example.fs (PStr "loop") = Raise IOError.
Proof.
  apply (fingerprint_needs_meta_main Example.role_include_load Example.yaml_load 0
           Example.fs (PStr "loop") "/roles/loop").
  - reflexivity.
  - left. reflexivity.
Defined.

Lemma dependency_document_shape_witness :
  get_role_fingerprint Example.role_include_load Sample.yaml_load 1
    (Sample.fs "") (PStr "web") = Raise AttributeError
  /\ get_role_fingerprint Example.role_include_load Sample.yaml_load 1
       (Sample.fs "dependencies:") (PStr "web") = Raise TypeError
  /\ get_role_fingerprint Example.role_include_load Sample.yaml_load 1
       (Sample.fs "dependencies: [common]") (PStr "web") = Raise AttributeError.
Proof.
  split; [|split].
  - apply (proj1 (dependency_document_shape
                    Example.role_include_load Sample.yaml_load 0
                    (Sample.fs "") (PStr "web") "/roles/web"
                    (Example.role_dir "- ping:" "") "" PNone
                    eq_refl eq_refl eq_refl eq_refl eq_refl)).
    reflexivity.
  - apply (proj1 (proj2 (dependency_document_shape
                           Example.role_include_load Sample.yaml_load 0
                           (Sample.fs "dependencies:") (PStr "web") "/roles/web"
                           (Example.role_dir "- ping:" "dependencies:") "dependencies:"
                           (PDict {[ "dependencies" := PNone ]})
                           eq_refl eq_refl eq_refl eq_refl eq_refl))
             {[ "dependencies" := PNone ]} PNone); [reflexivity|reflexivity|].
    left. reflexivity.
  - apply (proj2 (proj2 (dependency_document_shape
                           Example.role_include_load Sample.yaml_load 0
                           (Sample.fs "dependencies: [common]") (PStr "web") "/roles/web"
                           (Example.role_dir "- ping:" "dependencies: [common]")
                           "dependencies: [common]"
                           (PDict {[ "dependencies" := PList [PStr "common"] ]})
                           eq_refl eq_refl eq_refl eq_refl eq_refl))
             {[ "dependencies" := PList [PStr "common"] ]} (PStr "common") []);
      reflexivity.
Defined.

Lemma fingerprint_returned_only_if_all_resolve_witness :
  exists deps,
    get_dependencies_for_role Example.yaml_load Example.fs "/roles/common" = Ok deps /\
    forall next, In next deps ->
      exists dependency,
        next = Ok dependency /\
        (truthy dependency = true ->
         returns (resolve_role_to_path Example.role_include_load dependency)).
Proof.
  apply (fingerprint_returned_only_if_all_resolve
           Example.role_include_load Example.yaml_load 2 Example.fs (PStr "web")
           "/roles/web" "/roles/common").
  - eexists. vm_compute. reflexivity.
  - reflexivity.
  - apply rtc_once. exists [Ok (PStr "db"); Ok (PStr "common")], (PStr "common").
    repeat split; try reflexivity. right. left. reflexivity.
Defined.

(** ** hash_dir: what the hash input does not show *)

Lemma no_documents_no_input : forall n top,
  documents n = [] -> tree_hash_input top n = "".
Proof.
  induction n as [data|es IH] using node_forall_ind; intros top Hnone; [reflexivity|].
  cbn [documents] in Hnone. cbn [tree_hash_input].
  assert (files_hash_input top es = "" /\
          join_all (map (fun e => tree_hash_input (path_join top (fst e)) (snd e)) es) = "")
    as [-> ->]; [|reflexivity].
  induction es as [|[name sub] es IHes]; [split; reflexivity|].
  apply Forall_cons_iff in IH as [IHsub IH]. cbn [flat_map snd] in Hnone, IHsub.
  apply app_eq_nil in Hnone as [Hsub Hrest].
  destruct (IHes IH Hrest) as [Hf Hj].
  cbn [map fst snd]. rewrite join_all_cons, Hj, (IHsub _ Hsub).
  destruct sub as [data|sub]; [discriminate Hsub|].
  cbn [files_hash_input]. split; [exact Hf|reflexivity].
Qed.

(** X17. Directories that hold no regular file, however nested, leave no
    trace in the hash: a role directory with such a subdirectory and the same
    directory without it give [hash_dir] the same outcome, so creating or
    removing empty directories never changes a fingerprint. *)
Theorem empty_directories_are_not_hashed :
  forall fs1 fs2 st dir_path pre name sub post,
    fs_lookup fs1 dir_path = Some (Dir (pre ++ (name, sub) :: post)) ->
    wf_node (Dir (pre ++ (name, sub) :: post)) = true ->
    fs_lookup fs2 dir_path = Some (Dir (pre ++ post)) ->
    wf_node (Dir (pre ++ post)) = true ->
    documents sub = [] ->
    hash_dir fs1 st dir_path = hash_dir fs2 st dir_path.
Proof.
  intros fs1 fs2 st dir_path pre name sub post H1 Hwf1 H2 Hwf2 Hnone.
  rewrite (hash_dir_spec fs1 st dir_path _ H1 Hwf1).
  rewrite (hash_dir_spec fs2 st dir_path _ H2 Hwf2).
  rewrite tree_hash_input_split, tree_hash_input_app.
  cbn [fst snd]. rewrite (no_documents_no_input sub _ Hnone).
  destruct sub as [data|es]; [discriminate Hnone|].
  cbn [files_hash_input]. reflexivity.
Qed.

Lemma empty_directories_are_not_hashed_witness :
  hash_dir Sample.with_empty_directories initial "/roles/web" =
  hash_dir (Sample.fs "{}") initial "/roles/web".
Proof.
  apply (empty_directories_are_not_hashed
           Sample.with_empty_directories (Sample.fs "{}") initial "/roles/web"
           [] "files" (Dir [("static", Dir [])])
           [ ("tasks", Dir [("main.yml", File "- ping:")]);
             ("meta", Dir [("main.yml", File "{}")]) ]); reflexivity.
Defined.

Lemma string_take_all (n : nat) : forall s,
  String.length s <= n -> string_take n s = s /\ string_drop n s = "".
Proof.
  induction n as [|n IH]; intros [|a s] Hlen; simpl in *; try (split; reflexivity); try lia.
  destruct (IH s) as [-> ->]; [lia|]. split; reflexivity.
Qed.

Lemma blocks_single (data : string) :
  data <> "" -> String.length data <= blocksize -> blocks data = [data].
Proof.
  intros Hne Hlen. unfold blocks. destruct data as [|a data]; [congruence|].
  cbn [blocks_of]. destruct (string_take_all blocksize _ Hlen) as [-> ->].
  rewrite blocks_of_empty. reflexivity.
Qed.

Lemma file_hash_input_single (path data : string) :
  data <> "" -> String.length data <= blocksize ->
  file_hash_input path data = path +:+ "::" +:+ data +:+ "::".
Proof.
  intros Hne Hlen. unfold file_hash_input, separator.
  rewrite (blocks_single data Hne Hlen). cbn [map join_all fold_right].
  rewrite string_app_nil_r. reflexivity.
Qed.

(** X18. The hash input does not tell where a file ends: a single file whose
    bytes spell a separator, the path of a second file, a separator and more
    bytes gives [hash_dir] the same outcome as two files. Two different role
    directories can so have the same fingerprint without any collision in
    SHA-256. *)
Theorem one_file_can_pass_for_two :
  forall fs1 fs2 st dir_path a b x y,
    let both := x +:+ "::" +:+ path_join dir_path b +:+ "::" +:+ y in
    fs_lookup fs1 dir_path = Some (Dir [(a, File both)]) ->
    wf_node (Dir [(a, File both)]) = true ->
    fs_lookup fs2 dir_path = Some (Dir [(a, File x); (b, File y)]) ->
    wf_node (Dir [(a, File x); (b, File y)]) = true ->
    x <> "" -> y <> "" -> String.length both <= blocksize ->
    hash_dir fs1 st dir_path = hash_dir fs2 st dir_path.
Proof.
  intros fs1 fs2 st dir_path a b x y both H1 Hwf1 H2 Hwf2 Hx Hy Hlen.
  rewrite (hash_dir_spec fs1 st dir_path _ H1 Hwf1).
  rewrite (hash_dir_spec fs2 st dir_path _ H2 Hwf2).
  assert (String.length x <= blocksize /\ String.length y <= blocksize) as [Hlx Hly].
  { unfold both in Hlen. rewrite !string_app_length in Hlen. lia. }
  assert (both <> "") as Hboth.
  { unfold both. destruct x; [congruence|discriminate]. }
  cbn [tree_hash_input files_hash_input map fst snd join_all fold_right].
  rewrite (file_hash_input_single _ both Hboth Hlen).
  rewrite (file_hash_input_single _ x Hx Hlx), (file_hash_input_single _ y Hy Hly).
  unfold both. rewrite !string_app_assoc, !string_app_nil_r. reflexivity.
Qed.

Lemma blocksize_at_least_1024 : 1024 <= blocksize.
Proof.
  with_strategy transparent [blocksize] (unfold blocksize).
  change 1024 with (1 * 1024) at 1. apply Nat.mul_le_mono_r. lia.
Qed.

Lemma one_file_can_pass_for_two_witness :
  hash_dir (Dir [("r", Dir [("a", File ("x" +:+ "::" +:+ path_join "/r" "b" +:+ "::" +:+ "y"))])])
    initial "/r" =
  hash_dir (Dir [("r", Dir [("a", File "x"); ("b", File "y")])]) initial "/r".
Proof.
  apply (one_file_can_pass_for_two
           (Dir [("r", Dir [("a", File ("x" +:+ "::" +:+ path_join "/r" "b" +:+ "::" +:+ "y"))])])
           (Dir [("r", Dir [("a", File "x"); ("b", File "y")])])
           initial "/r" "a" "b" "x" "y"); try reflexivity; try discriminate.
  etransitivity; [|exact blocksize_at_least_1024].
  apply Nat.leb_le. reflexivity.
Defined.

Section Repeats.

Variable role_include_load : pyval -> outcome string.
Variable yaml_safe_load : string -> outcome pyval.

(** X19. Nothing remembers the roles already hashed: a dependency that is
    listed several times is hashed every time, its bytes fed to the hash once
    per occurrence. *)
Theorem repeated_dependency_is_hashed_again :
  forall depth fs st name role_path alone (times : nat),
    truthy name = true ->
    resolve_role_to_path role_include_load name = Ok role_path ->
    hash_role role_include_load yaml_safe_load depth fs initial role_path = Ok alone ->
    exists st',
      for_dependencies role_include_load
        (hash_role role_include_load yaml_safe_load depth fs)
        st (repeat (Ok name) times) = Ok st' /\
      hash_obj st' = hash_obj st +:+ join_all (repeat (hash_obj alone) times).
Proof.
  intros depth fs st name role_path alone times Ht Hres Halone. revert st.
  induction times as [|times IH]; intros st.
  - exists st. split; [reflexivity|]. cbn. rewrite string_app_nil_r. reflexivity.
  - cbn [repeat for_dependencies mbind outcome_bind]. rewrite Ht, Hres.
    cbn [mbind outcome_bind].
    rewrite <- (prepend_initial (resolving name st)).
    rewrite (hash_role_frame role_include_load yaml_safe_load fs), Halone.
    cbn [fmap outcome_fmap mbind outcome_bind].
    destruct (IH (prepend (resolving name st) alone)) as (st' & Hst' & Hobj).
    exists st'. split; [exact Hst'|].
    rewrite Hobj. cbn [prepend hash_obj resolving]. rewrite join_all_cons.
    rewrite string_app_assoc. reflexivity.
Qed.

End Repeats.

Lemma repeated_dependency_is_hashed_again_witness :
  exists st',
    for_dependencies Example.role_include_load
      (hash_role Example.role_include_load Example.yaml_load 1 Example.fs)
      initial (repeat (Ok (PStr "db")) 2) = Ok st' /\
    hash_obj st' =
    hash_obj initial +:+
    join_all (repeat
                (hash_obj (State "/roles/db/tasks/main.yml::- ping:::/roles/db/meta/main.yml::{}::" []))
                2).
Proof.
  apply (repeated_dependency_is_hashed_again Example.role_include_load Example.yaml_load
           1 Example.fs initial (PStr "db") "/roles/db").
  - reflexivity.
  - reflexivity.
  - vm_compute. reflexivity.
Defined.

(** ** get_content_from_role: where the file is looked for *)

Lemma components_join_relative (top rest : string) :
  starts_with_slash rest = false ->
  components (path_join top rest) = components top ++ components rest.
Proof.
  intros Hrel. unfold path_join. rewrite Hrel.
  destruct (String.eqb_spec top "") as [->|Hntop]; [reflexivity|].
  cbn [orb]. destruct (ends_with_slash top) eqn:Hend.
  - apply ends_with_slash_inv in Hend as [top' ->].
    rewrite string_app_assoc. change ("/" +:+ rest) with (String "/" rest).
    rewrite !components_app. change (components "") with (@nil string).
    rewrite app_nil_r. reflexivity.
  - change ("/" +:+ rest) with (String "/" rest). apply components_app.
Qed.

Section RoleFiles.

Variable role_include_load : pyval -> outcome string.
Variable yaml_round_trip_load : string -> outcome pyval.

Lemma content_of_relative_path (fs : node) (role_name : pyval)
    (role_path relative_path : string) :
  resolve_role_to_path role_include_load role_name = Ok role_path ->
  starts_with_slash relative_path = false ->
  get_content_from_role role_include_load yaml_round_trip_load fs role_name relative_path =
  content_at yaml_round_trip_load
    (fs_lookup fs role_path ≫= fun tree => descend tree (components relative_path)).
Proof.
  intros Hres Hrel. unfold get_content_from_role, path_exists, open_read, fs_lookup.
  rewrite Hres. cbn [mbind outcome_bind].
  rewrite (components_join_relative _ _ Hrel), descend_app.
  destruct (descend fs (components role_path)) as [tree|]; [|reflexivity].
  cbn [mbind option_bind].
  destruct (descend tree (components relative_path)) as [[data|es]|]; reflexivity.
Qed.

(** X20. The container description and the defaults of a role are looked for
    inside the role's own directory, at [meta/container.yml] and
    [defaults/main.yml]: a regular file there is loaded (a failure of the
    loader is the result), a directory there raises [IOError], and when there
    is nothing, or the role's directory itself is missing, the result is the
    empty mapping. Nothing outside the role's directory matters. *)
Theorem role_files_are_read_inside_the_role :
  forall fs role_name role_path,
    resolve_role_to_path role_include_load role_name = Ok role_path ->
    get_metadata_from_role role_include_load yaml_round_trip_load fs role_name =
    content_at yaml_round_trip_load
      (fs_lookup fs role_path ≫= fun tree => descend tree ["meta"; "container.yml"])
    /\ get_defaults_from_role role_include_load yaml_round_trip_load fs role_name =
       content_at yaml_round_trip_load
         (fs_lookup fs role_path ≫= fun tree => descend tree ["defaults"; "main.yml"]).
Proof.
  intros fs role_name role_path Hres. split.
  - apply (content_of_relative_path fs role_name role_path "meta/container.yml" Hres).
    reflexivity.
  - apply (content_of_relative_path fs role_name role_path "defaults/main.yml" Hres).
    reflexivity.
Qed.

(** X21. A relative path that begins with a slash is not relative at all:
    [os.path.join] drops the role's directory, and the file is looked for from
    the root of the file system. *)
Theorem absolute_path_leaves_the_role :
  forall fs role_name role_path relative_path,
    resolve_role_to_path role_include_load role_name = Ok role_path ->
    starts_with_slash relative_path = true ->
    get_content_from_role role_include_load yaml_round_trip_load fs role_name relative_path =
    content_at yaml_round_trip_load (fs_lookup fs relative_path).
Proof.
  intros fs role_name role_path relative_path Hres Habs.
  unfold get_content_from_role, path_exists, open_read, path_join.
  rewrite Hres, Habs. cbn [mbind outcome_bind].
  destruct (fs_lookup fs relative_path) as [[data|es]|]; reflexivity.
Qed.

End RoleFiles.

Lemma role_files_are_read_inside_the_role_witness :
  get_metadata_from_role Example.role_include_load Sample.yaml_load
    (Sample.with_container (File "ports: ['80']")) (PStr "web") =
  Ok (PDict {[ "ports" := PList [PStr "80"] ]})
  /\ get_metadata_from_role Example.role_include_load Sample.yaml_load
       (Sample.with_container (Dir [])) (PStr "web") = Raise IOError
  /\ get_defaults_from_role Example.role_include_load Sample.yaml_load
       (Sample.with_container (Dir [])) (PStr "web") = Ok empty_dict.
Proof.
  split; [|split].
  - apply (role_files_are_read_inside_the_role Example.role_include_load Sample.yaml_load
             (Sample.with_container (File "ports: ['80']")) (PStr "web") "/roles/web").
    reflexivity.
  - apply (role_files_are_read_inside_the_role Example.role_include_load Sample.yaml_load
             (Sample.with_container (Dir [])) (PStr "web") "/roles/web").
    reflexivity.
  - apply (role_files_are_read_inside_the_role Example.role_include_load Sample.yaml_load
             (Sample.with_container (Dir [])) (PStr "web") "/roles/web").
    reflexivity.
Defined.

Lemma absolute_path_leaves_the_role_witness :
  get_content_from_role Example.role_include_load Sample.yaml_load
    (Sample.with_container (File "ports: ['80']")) (PStr "db")
    "/roles/web/meta/container.yml" =
  Ok (PDict {[ "ports" := PList [PStr "80"] ]}).
Proof.
  apply (absolute_path_leaves_the_role Example.role_include_load Sample.yaml_load
           (Sample.with_container (File "ports: ['80']")) (PStr "db") "/roles/db").
  - reflexivity.
  - reflexivity.
Defined.
